(** * RFM customer segmentation: a shallow embedding of [app.py]

    The script is a straight-line pandas pipeline.  Each stage is embedded
    as a function on lists of records (a data frame is the list of its
    rows, in row order):

    - the column check of the loader ([required_cols], lines 43-46);
    - preprocessing (lines 50-53);
    - the group-by aggregation (lines 56-62);
    - quintile scoring with [pd.qcut] (lines 65-68);
    - [segment_customer] and the action table (lines 72-100);
    - the optional [Country] left join (lines 103-104).

    Numbers.  Identifiers, time stamps and counts are integers ([Z]).
    Prices and revenues are exact rationals; the quantile edges of
    [pd.qcut] are computed in [Q].  Rounding of IEEE doubles is not
    represented.  An operation of the script that raises is embedded as a
    function into [option] (or a sum with the error), [None] standing for
    the raised exception. *)

From Stdlib Require Import ZArith QArith Qcanon Lqa Lia.
From Stdlib Require Import SetoidList SetoidPermutation Ascii DecimalString.
From stdpp Require Import base option list sorting strings gmap.

Local Open Scope string_scope.
Local Open Scope Z_scope.

(** ** Segment classifier (lines 72-100) *)

Module Segment.

(** [segment_customer(row)], reading the three score cells of the row.
    Python's [and] and [elif] chain become [&&] and nested conditionals. *)
Definition segment_customer (r f m : Z) : string :=
  if (r >=? 4) && (f >=? 4) && (m >=? 4) then "Champions"
  else if (r >=? 3) && (f >=? 3) && (m >=? 3) then "Loyal Customers"
  else if (r >=? 4) && (f <=? 2) then "Potential Loyalist"
  else if (r >=? 3) && (f <=? 2) then "Recent Customers"
  else if (r <=? 2) && (f >=? 4) then "At Risk"
  else if (r <=? 2) && (f <=? 2) then "Lost"
  else "Others".

(** The dictionary literal handed to [Series.map] (lines 92-100), in the
    order it is written. *)
Definition action_table : list (string * string) :=
  [ ("Champions", "Offer VIP loyalty reward");
    ("Loyal Customers", "Upsell premium products");
    ("Potential Loyalist", "Send exclusive preview");
    ("Recent Customers", "Welcome email & offer");
    ("At Risk", "Send win-back campaign");
    ("Lost", "Big discount or let go");
    ("Others", "General promotions") ].

Definition action_dict : gmap string string := list_to_map action_table.

(** [Series.map(dict)] on one cell: a key missing from the dictionary
    yields NaN, here [None]. *)
Definition suggested_action (segment : string) : option string :=
  action_dict !! segment.

(** The wording of the specification: an ordered list of guarded rules,
    the first rule whose guard holds decides, with a default. *)
Section DecisionList.
Context {I O : Type}.

Fixpoint decision_list (rules : list ((I -> bool) * O)) (default : O)
    (x : I) : O :=
  match rules with
  | [] => default
  | (guard, out) :: rest =>
      if guard x then out else decision_list rest default x
  end.

End DecisionList.

Definition spec_rules : list ((Z * Z * Z -> bool) * string) :=
  [ (fun '(r, f, m) => (4 <=? r) && (4 <=? f) && (4 <=? m), "Champions");
    (fun '(r, f, m) => (3 <=? r) && (3 <=? f) && (3 <=? m), "Loyal Customers");
    (fun '(r, f, _) => (4 <=? r) && (f <=? 2), "Potential Loyalist");
    (fun '(r, f, _) => (3 <=? r) && (f <=? 2), "Recent Customers");
    (fun '(r, f, _) => (r <=? 2) && (4 <=? f), "At Risk");
    (fun '(r, f, _) => (r <=? 2) && (f <=? 2), "Lost") ].

Definition segments : list string := action_table.*1.

End Segment.

(** ** Loader: required columns (lines 43-46) *)

Module Loader.

(** What the loader sees of a data frame: its header and its rows of
    cells; the check only reads the header. *)
Record DataFrame (Cell : Type) : Type := mkDataFrame {
  columns : list string;
  values : list (list Cell)
}.
Arguments mkDataFrame {Cell} _ _.
Arguments columns {Cell} _.
Arguments values {Cell} _.

Definition required_cols : gset string :=
  {[ "InvoiceNo"; "Quantity"; "UnitPrice"; "InvoiceDate"; "CustomerID" ]}.

(** The script either stops after [st.error], with the set printed in the
    message, or goes on with a value. *)
Inductive outcome (A : Type) : Type :=
  | Stopped (missing : gset string)
  | Continue (a : A).
Arguments Stopped {A} _.
Arguments Continue {A} _.

Section Validate.
Context {Cell : Type}.

(** [if not required_cols.issubset(df.columns): st.error(...); st.stop()] *)
Definition validate (df : DataFrame Cell) : outcome (DataFrame Cell) :=
  let present : gset string := list_to_set (columns df) in
  if decide (required_cols ⊆ present)
  then Continue df
  else Stopped (required_cols ∖ present).

(** The rest of the script, [rest], runs on the frame that passed. *)
Definition run {Out : Type} (rest : DataFrame Cell -> Out)
    (df : DataFrame Cell) : outcome Out :=
  match validate df with
  | Stopped missing => Stopped missing
  | Continue df' => Continue (rest df')
  end.

End Validate.

End Loader.

(** ** Transactions and preprocessing (lines 50-53) *)

Module Frame.

(** A row of the loaded table, dates already parsed to nanoseconds since
    the epoch.  [CustomerID] is nullable; [Country] is [None] for NaN or
    when the file has no such column. *)
Record Transaction : Type := mkTransaction {
  tx_InvoiceNo : string;
  tx_InvoiceDate : Z;
  tx_CustomerID : option Z;
  tx_Quantity : Qc;
  tx_UnitPrice : Qc;
  tx_Country : option string
}.

(** A row of the cleaned table. *)
Record Row : Type := mkRow {
  InvoiceNo : string;
  InvoiceDate : Z;
  CustomerID : Z;
  Quantity : Qc;
  UnitPrice : Qc;
  TotalPrice : Qc;
  Country : option string
}.

(** [dropna(subset=['CustomerID'])], [astype(int)] and the [TotalPrice]
    column, row by row. *)
Definition preprocess_row (t : Transaction) : option Row :=
  cid ← tx_CustomerID t;
  Some {| InvoiceNo := tx_InvoiceNo t;
          InvoiceDate := tx_InvoiceDate t;
          CustomerID := cid;
          Quantity := tx_Quantity t;
          UnitPrice := tx_UnitPrice t;
          TotalPrice := (tx_Quantity t * tx_UnitPrice t)%Qc;
          Country := tx_Country t |}.

Definition preprocess (df : list Transaction) : list Row :=
  omap preprocess_row df.

End Frame.

(** ** RFM aggregation (lines 56-62) *)

Module Rfm.
Import Frame.

Record RfmRow : Type := mkRfmRow {
  rfm_CustomerID : Z;
  Recency : Z;
  Frequency : Z;
  Monetary : Qc
}.

(** One day, [pd.Timedelta(days=1)], in nanoseconds. *)
Definition day : Z := 86400 * 10 ^ 9.

(** [Series.max()]: nothing ([NaT]) on an empty column. *)
Definition series_max (x : list Z) : option Z :=
  match x with
  | [] => None
  | a :: x' => Some (foldl Z.max a x')
  end.

(** [Series.nunique()] *)
Definition nunique (x : list string) : Z :=
  Z.of_nat (length (remove_dups x)).

(** [Series.sum()] *)
Definition series_sum (x : list Qc) : Qc := foldl Qcplus (Q2Qc 0) x.

(** [rfm_ref_date = df['InvoiceDate'].max() + pd.Timedelta(days=1)] *)
Definition rfm_ref_date (df : list Row) : option Z :=
  m ← series_max (InvoiceDate <$> df); Some (m + day).

(** [Timedelta.days]: whole days, rounded down. *)
Definition days (delta : Z) : Z := delta `div` day.

(** The keys of [df.groupby('CustomerID')], which sorts them. *)
Definition group_keys (df : list Row) : list Z :=
  merge_sort Z.le (remove_dups (CustomerID <$> df)).

Definition group (df : list Row) (key : Z) : list Row :=
  filter (λ r, CustomerID r = key) df.

(** The three aggregations of [.agg({...})] on one group. *)
Definition agg_group (ref : option Z) (key : Z) (g : list Row)
    : option RfmRow :=
  ref_date ← ref;
  last ← series_max (InvoiceDate <$> g);
  Some {| rfm_CustomerID := key;
          Recency := days (ref_date - last);
          Frequency := nunique (InvoiceNo <$> g);
          Monetary := series_sum (TotalPrice <$> g) |}.

Definition rfm_table (df : list Row) : option (list RfmRow) :=
  let ref := rfm_ref_date df in
  mapM (λ key, agg_group ref key (group df key)) (group_keys df).

End Rfm.

(** ** Quantile binning: [pd.qcut] and [Series.rank] (lines 65-67) *)

Module Qcut.

Local Open Scope Q_scope.

#[export] Instance Qle_dec : RelDecision Qle :=
  λ x y, decide (Qnum x * QDen y ≤ Qnum y * QDen x)%Z.
#[export] Instance Qlt_dec : RelDecision Qlt :=
  λ x y, decide (Qnum x * QDen y < Qnum y * QDen x)%Z.
#[export] Instance Qeq_dec : RelDecision Qeq :=
  λ x y, decide (Qnum x * QDen y = Qnum y * QDen x)%Z.

(** [Series.quantile(k/q)] with linear interpolation, on the sorted
    values [s]: the virtual index is [(n-1)*k/q], the result lies between
    the neighbours [lo] and [hi = min(lo+1, n-1)].  Empty data has no
    quantile (NaN). *)
Definition quantile (s : list Q) (q k : nat) : option Q :=
  let n := length s in
  let pos := ((n - 1) * k)%nat in
  let lo := (pos / q)%nat in
  let hi := ((lo + 1) `min` (n - 1))%nat in
  let gamma := Z.of_nat (pos mod q) # Pos.of_nat q in
  a ← s !! lo;
  b ← s !! hi;
  Some (a + gamma * (b - a)).

(** The [q+1] bin edges at [np.linspace(0, 1, q+1)]. *)
Definition quantile_bins (x : list Q) (q : nat) : option (list Q) :=
  mapM (quantile (merge_sort Qle x) q) (seq 0 (S q)).

(** [algos.unique]: distinct values in order of first appearance. *)
Fixpoint unique (l : list Q) : list Q :=
  match l with
  | [] => []
  | x :: l' => x :: filter (λ y, ¬ y == x) (unique l')
  end.

(** [bins.searchsorted(v, side='left')]: the first index whose edge is
    not below [v] (the edges are ascending). *)
Fixpoint searchsorted_left (bins : list Q) (v : Q) : nat :=
  match bins with
  | [] => 0
  | b :: bins' => if decide (b < v) then S (searchsorted_left bins' v) else 0
  end.

(** One cell of [_bins_to_cuts] with [include_lowest=True]
    ([ids[x == bins[0]] = 1]), followed by [.astype(int)]: an index outside
    the bins is NaN, which [astype] refuses. *)
Definition bin_index (bins : list Q) (v : Q) : nat :=
  let id := searchsorted_left bins v in
  if decide (v == nth 0 bins 0) then 1%nat else id.

Definition cut_label (bins : list Q) (labels : list Z) (v : Q) : option Z :=
  let id := bin_index bins v in
  if decide (id = length bins ∨ id = 0%nat) then None
  else labels !! (id - 1)%nat.

(** [_bins_to_cuts(..., duplicates='raise')]: repeated edges, repeated
    labels and a wrong number of labels raise [ValueError]. *)
Definition bins_to_cuts (x bins : list Q) (labels : list Z)
    : option (list Z) :=
  if decide (length (unique bins) < length bins ∧ length bins ≠ 2)%nat
  then None
  else if decide (¬ NoDup labels) then None
  else if decide (length labels ≠ (length bins - 1)%nat) then None
  else mapM (cut_label bins labels) x.

(** [pd.qcut(x, q, labels=labels).astype(int)] *)
Definition qcut (x : list Q) (q : nat) (labels : list Z) : option (list Z) :=
  bins ← quantile_bins x q;
  bins_to_cuts x bins labels.

(** [Series.rank(method='first')]: rank by value, equal values ranked in
    the order they appear; ranks start at 1. *)
Definition rank_first (x : list Z) : list Z :=
  imap (λ i v, Z.of_nat (1 + length (filter (λ w, (w < v)%Z) x)
                           + length (filter (λ w, w = v) (take i x)))) x.

End Qcut.

(** ** Equal-frequency binning, as the specification words it *)

Module Binning.

(** How often the score [z] occurs in a score column. *)
Definition frequency (z : Z) (col : list Z) : nat :=
  length (filter (λ s, s = z) col).

(** "Within one unit of population_size/5": [|count - n/5| <= 1], with
    the division exact, that is [|5*count - n| <= 5]. *)
Definition within_one_of_fifth (count n : nat) : Prop :=
  (Z.abs (5 * Z.of_nat count - Z.of_nat n) ≤ 5)%Z.

#[export] Instance within_one_of_fifth_dec count n :
  Decision (within_one_of_fifth count n).
Proof. unfold within_one_of_fifth. apply _. Defined.

Definition equal_frequency (col : list Z) : Prop :=
  ∀ z, (1 ≤ z ≤ 5)%Z → within_one_of_fifth (frequency z col) (length col).

End Binning.

(** ** Scoring, segments and the country join (lines 65-104) *)

Module Pipeline.
Import Frame Rfm Qcut Segment.

(** [int.__str__], as used by [.astype(str)]. *)
Definition str (z : Z) : string := NilZero.string_of_int (Z.to_int z).

Definition R_labels : list Z := [5; 4; 3; 2; 1].
Definition F_labels : list Z := [1; 2; 3; 4; 5].
Definition M_labels : list Z := [1; 2; 3; 4; 5].

Definition R_Score_col (rfm : list RfmRow) : option (list Z) :=
  qcut ((λ c, inject_Z (Recency c)) <$> rfm) 5 R_labels.
Definition F_Score_col (rfm : list RfmRow) : option (list Z) :=
  qcut (inject_Z <$> rank_first (Frequency <$> rfm)) 5 F_labels.
Definition M_Score_col (rfm : list RfmRow) : option (list Z) :=
  qcut ((λ c, this (Monetary c)) <$> rfm) 5 M_labels.

(** A row of [rfm] after line 100. *)
Record Customer : Type := mkCustomer {
  metrics : RfmRow;
  R_Score : Z;
  F_Score : Z;
  M_Score : Z;
  RFM_Score : string;
  Segment : string;
  Suggested_Action : option string
}.

Definition score_row (c : RfmRow) (r f m : Z) : Customer :=
  let seg := segment_customer r f m in
  {| metrics := c;
     R_Score := r; F_Score := f; M_Score := m;
     RFM_Score := str r +:+ str f +:+ str m;
     Segment := seg;
     Suggested_Action := suggested_action seg |}.

Fixpoint score_rows (rfm : list RfmRow) (rs fs ms : list Z) : list Customer :=
  match rfm, rs, fs, ms with
  | c :: rfm', r :: rs', f :: fs', m :: ms' =>
      score_row c r f m :: score_rows rfm' rs' fs' ms'
  | _, _, _, _ => []
  end.

Definition score (rfm : list RfmRow) : option (list Customer) :=
  rs ← R_Score_col rfm;
  fs ← F_Score_col rfm;
  ms ← M_Score_col rfm;
  Some (score_rows rfm rs fs ms).

(** [DataFrame.drop_duplicates()]: the first of equal rows is kept. *)
Fixpoint drop_duplicates {A} `{EqDecision A} (l : list A) : list A :=
  match l with
  | [] => []
  | x :: l' => x :: filter (λ y, y ≠ x) (drop_duplicates l')
  end.

(** A row of the final table; [Country] is [None] for NaN and when the
    input has no such column. *)
Record Report : Type := mkReport {
  customer : Customer;
  report_Country : option string
}.

(** [left.merge(right, on='CustomerID', how='left')]: every left row is
    paired with each right row of the same key, in order, or kept alone. *)
Definition merge_left (left : list Customer) (right : list (Z * option string))
    : list Report :=
  c ← left;
  match filter (λ p, p.1 = rfm_CustomerID (metrics c)) right with
  | [] => [ {| customer := c; report_Country := None |} ]
  | matches => (λ p, {| customer := c; report_Country := p.2 |}) <$> matches
  end.

Definition country_pairs (df : list Row) : list (Z * option string) :=
  drop_duplicates ((λ r, (CustomerID r, Country r)) <$> df).

Definition add_country (has_country : bool) (df : list Row)
    (rfm : list Customer) : list Report :=
  if has_country then merge_left rfm (country_pairs df)
  else (λ c, {| customer := c; report_Country := None |}) <$> rfm.

(** The table [rfm] as displayed and exported, from the cleaned table. *)
Definition rfm_report (has_country : bool) (df : list Row)
    : option (list Report) :=
  rfm ← rfm_table df;
  scored ← score rfm;
  Some (add_country has_country df scored).

End Pipeline.

(** ** The tested properties of the scores, as the specification words them *)

Module Tested.
Import Rfm Pipeline Binning.

Definition scores_in_range (c : Customer) : Prop :=
  1 ≤ R_Score c ≤ 5 ∧ 1 ≤ F_Score c ≤ 5 ∧ 1 ≤ M_Score c ≤ 5.


(** "Every customer identifier appearing in the cleaned table appears
    exactly once in the RFM output table". *)
Definition appears_once (id : Z) (out : list Report) : Prop :=
  length (filter (λ row, rfm_CustomerID (metrics (customer row)) = id) out)
  = 1%nat.

(** The character of a decimal digit. *)
Definition digit (z : Z) : ascii := ascii_of_nat (48 + Z.to_nat z).

End Tested.

(** ** Sample tables *)

Module Examples.
Import Frame Rfm Pipeline.

(** One line of an invoice, [d] days after the first day on file. *)
Definition sale (inv : string) (d : Z) (cid : option Z) (qty price : Z)
    (country : string) : Transaction :=
  {| tx_InvoiceNo := inv;
     tx_InvoiceDate := d * day;
     tx_CustomerID := cid;
     tx_Quantity := Qc_of_Z qty;
     tx_UnitPrice := Qc_of_Z price;
     tx_Country := Some country |}.

(** Customer 1 buys from two countries. *)
Definition two_countries : list Row :=
  preprocess
    [ sale "536365" 0 (Some 1) 2 3 "United Kingdom";
      sale "536366" 1 (Some 1) 1 4 "France";
      sale "536367" 2 None 1 1 "United Kingdom";
      sale "536368" 5 (Some 2) 1 5 "United Kingdom" ].


Definition aggregate (id recency frequency monetary : Z) : RfmRow :=
  {| rfm_CustomerID := id;
     Recency := recency;
     Frequency := frequency;
     Monetary := Qc_of_Z monetary |}.

(** Ten customers, four of them last seen two days ago. *)
Definition tied_recency : list RfmRow :=
  [ aggregate 1 1 1 10; aggregate 2 1 2 20; aggregate 3 2 1 30;
    aggregate 4 2 3 40; aggregate 5 2 1 50; aggregate 6 2 2 60;
    aggregate 7 3 1 70; aggregate 8 4 5 80; aggregate 9 5 1 90;
    aggregate 10 6 4 100 ].


(** The same three with identical invoices and revenue. *)
Definition three_alike : list RfmRow :=
  [ aggregate 1 1 1 10; aggregate 2 30 1 10; aggregate 3 90 1 10 ].

(** Two customers with the same Frequency, in both row orders. *)
Definition pair_ab : list RfmRow := [ aggregate 17850 3 2 10; aggregate 13047 8 2 20 ].
Definition pair_ba : list RfmRow := [ aggregate 13047 8 2 20; aggregate 17850 3 2 10 ].

End Examples.

(** ** Preview, segment summary and the positive-revenue view
    (lines 111, 141-146, 171) *)

Module Reporting.
Import Rfm Pipeline.

(** The [CustomerID] cell of a row of the final table. *)
Definition customer_id (row : Report) : Z :=
  rfm_CustomerID (metrics (customer row)).

(** The [CustomerID] and [Country] cells of a row of the final table. *)
Definition customer_country (row : Report) : Z * option string :=
  (customer_id row, report_Country row).

(** [rfm.head(20)], the preview shown on the page (line 111). *)
Definition head (n : nat) (rfm : list Report) : list Report := take n rfm.

(** [rfm_positive = rfm[rfm['Monetary'] > 0]] *)
Definition rfm_positive (rfm : list Report) : list Report :=
  filter (λ row, (0 < Monetary (metrics (customer row)))%Qc) rfm.

(** A row of [segment_summary]; [Segment] is its index. *)
Record SummaryRow : Type := mkSummaryRow {
  summary_Segment : string;
  mean_Recency : Q;
  mean_Frequency : Q;
  mean_Monetary : Q;
  Count : Z
}.

(** [Series.mean()] of a column without missing cells. *)
Definition series_mean (x : list Q) : Q :=
  (foldl Qplus 0 x / inject_Z (Z.of_nat (length x)))%Q.

(** Python's order on [str], by code point. *)
Definition string_le (a b : string) : Prop := String.leb a b = true.

#[export] Instance string_le_dec : RelDecision string_le :=
  λ a b, decide (String.leb a b = true).

(** The keys of [rfm.groupby("Segment")], sorted. *)
Definition summary_keys (rfm : list Report) : list string :=
  merge_sort string_le (remove_dups ((λ row, Segment (customer row)) <$> rfm)).

(** [.agg({"Recency": "mean", "Frequency": "mean", "Monetary": "mean",
    "CustomerID": "count"}).rename(columns={"CustomerID": "Count"})] on
    the group of one segment. *)
Definition summary_row (rfm : list Report) (seg : string) : SummaryRow :=
  let g := filter (λ row, Segment (customer row) = seg) rfm in
  {| summary_Segment := seg;
     mean_Recency :=
       series_mean ((λ row, inject_Z (Recency (metrics (customer row)))) <$> g);
     mean_Frequency :=
       series_mean ((λ row, inject_Z (Frequency (metrics (customer row)))) <$> g);
     mean_Monetary :=
       series_mean ((λ row, this (Monetary (metrics (customer row)))) <$> g);
     Count := Z.of_nat (length g) |}.

(** The order of [.sort_values(by="Count", ascending=False)].  pandas
    leaves the relative order of rows with equal [Count] to the sorting
    algorithm, and so does this embedding: nothing is stated about it. *)
Definition by_count_desc (a b : SummaryRow) : Prop := Count b ≤ Count a.

#[export] Instance by_count_desc_dec : RelDecision by_count_desc :=
  λ a b, decide (Count b ≤ Count a).

Definition segment_summary (rfm : list Report) : list SummaryRow :=
  merge_sort by_count_desc (summary_row rfm <$> summary_keys rfm).

End Reporting.

(** ** More sample tables *)

Module Cases.
Import Frame Rfm Pipeline Examples.

(** Customer 2 only returned goods; one line has no customer. *)
Definition with_returns : list Transaction :=
  [ sale "536370" 0 (Some 1) 3 4 "United Kingdom";
    sale "C536371" 2 (Some 2) (-2) 5 "Germany";
    sale "536372" 3 None 7 1 "United Kingdom";
    sale "536373" 4 (Some 3) 1 9 "France" ].

(** All invoices belong to one customer. *)
Definition single_customer : list Row :=
  preprocess
    [ sale "536374" 0 (Some 7) 1 2 "Spain";
      sale "536375" 3 (Some 7) 2 2 "Spain" ].

(** Three customers who spent the same amount. *)
Definition same_revenue : list RfmRow :=
  [ aggregate 1 1 1 10; aggregate 2 30 2 10; aggregate 3 90 3 10 ].

End Cases.

(** * Properties *)

(** The order of the rationals, for sorting. *)
#[local] Instance Qle_total : Total Qle.
Proof.
  intros x y. destruct (Qlt_le_dec x y); [left; by apply Qlt_le_weak | by right].
Qed.

#[local] Instance Qle_transitive : Transitive Qle.
Proof. intros x y z. apply Qle_trans. Qed.

#[local] Instance Qlt_transitive : Transitive Qlt.
Proof. intros x y z. apply Qlt_trans. Qed.

#[local] Instance Zle_total : Total Z.le.
Proof. intros x y. lia. Qed.

(** Replaces each quotient by 5 in the goal by a variable constrained by
    the division equation. *)
Ltac quotients_by_5 :=
  repeat match goal with
  | |- context [(?a / 5)%nat] =>
      let q := fresh "q" in
      pose proof (Nat.Div0.div_mod a 5);
      pose proof (Nat.mod_upper_bound a 5 ltac:(lia));
      set (q := (a / 5)%nat) in *; clearbody q
  end.

(** ** The segment classifier *)

Section SegmentFacts.
Import Segment.

Lemma segment_customer_cases r f m :
  segment_customer r f m ∈ segments.
Proof.
  unfold segment_customer, segments.
  repeat (match goal with |- context [if ?b then _ else _] => destruct b end);
    cbn; set_solver.
Qed.

(** The region of each segment, earlier rules taking precedence. *)
Lemma segment_customer_regions (r f m : Z) :
  (segment_customer r f m = "Champions" ↔ 4 ≤ r ∧ 4 ≤ f ∧ 4 ≤ m)
  ∧ (segment_customer r f m = "Loyal Customers" ↔
       (3 ≤ r ∧ 3 ≤ f ∧ 3 ≤ m) ∧ ¬ (4 ≤ r ∧ 4 ≤ f ∧ 4 ≤ m))
  ∧ (segment_customer r f m = "Potential Loyalist" ↔ 4 ≤ r ∧ f ≤ 2)
  ∧ (segment_customer r f m = "Recent Customers" ↔ r = 3 ∧ f ≤ 2)
  ∧ (segment_customer r f m = "At Risk" ↔ r ≤ 2 ∧ 4 ≤ f)
  ∧ (segment_customer r f m = "Lost" ↔ r ≤ 2 ∧ f ≤ 2)
  ∧ (segment_customer r f m = "Others" ↔
       ¬ (3 ≤ r ∧ 3 ≤ f ∧ 3 ≤ m) ∧ 2 < f ∧ ¬ (r ≤ 2 ∧ 4 ≤ f)).
Proof.
  unfold segment_customer.
  destruct (Z.geb_spec r 4), (Z.geb_spec f 4), (Z.geb_spec m 4),
    (Z.geb_spec r 3), (Z.geb_spec f 3), (Z.geb_spec m 3),
    (Z.leb_spec r 2), (Z.leb_spec f 2); cbn;
    repeat split; intros; try done; try lia.
Qed.

(** C1. The classifier is a total function of the three scores and agrees,
    on every triple (in particular on those with all components in 1..5),
    with the ordered rule list of the specification, first match winning
    and "Others" as the default; its value is always one of the seven
    segment names, and each name is returned exactly on the triples that
    pass its rule and none of the rules before it. *)
Theorem segment_customer_first_match (r f m : Z) :
  segment_customer r f m = decision_list spec_rules "Others" (r, f, m)
  ∧ segment_customer r f m ∈ segments
  ∧ (segment_customer r f m = "Champions" ↔ 4 ≤ r ∧ 4 ≤ f ∧ 4 ≤ m)
  ∧ (segment_customer r f m = "Loyal Customers" ↔
       (3 ≤ r ∧ 3 ≤ f ∧ 3 ≤ m) ∧ ¬ (4 ≤ r ∧ 4 ≤ f ∧ 4 ≤ m))
  ∧ (segment_customer r f m = "Potential Loyalist" ↔ 4 ≤ r ∧ f ≤ 2)
  ∧ (segment_customer r f m = "Recent Customers" ↔ r = 3 ∧ f ≤ 2)
  ∧ (segment_customer r f m = "At Risk" ↔ r ≤ 2 ∧ 4 ≤ f)
  ∧ (segment_customer r f m = "Lost" ↔ r ≤ 2 ∧ f ≤ 2)
  ∧ (segment_customer r f m = "Others" ↔
       ¬ (3 ≤ r ∧ 3 ≤ f ∧ 3 ≤ m) ∧ 2 < f ∧ ¬ (r ≤ 2 ∧ 4 ≤ f)).
Proof.
  split; [| split; [apply segment_customer_cases | apply segment_customer_regions]].
  unfold segment_customer, spec_rules, decision_list.
  by rewrite !Z.geb_leb.
Qed.

Lemma suggested_action_segment s :
  s ∈ segments → ∃ a, suggested_action s = Some a ∧ (s, a) ∈ action_table.
Proof.
  unfold segments, action_table; cbn.
  rewrite !elem_of_cons, elem_of_nil.
  intros H; repeat (destruct H as [-> | H]); try done;
    (eexists; split; [by vm_compute | set_solver]).
Qed.

End SegmentFacts.

(** ** The loader *)

Section LoaderFacts.
Import Loader.
Context {Cell : Type}.

Lemma validate_ok (df : DataFrame Cell) :
  (∀ c, c ∈ required_cols → c ∈ columns df) → validate df = Continue df.
Proof.
  intros H. unfold validate. case_decide as Hs; [done |].
  destruct Hs. intros c Hc. apply elem_of_list_to_set. auto.
Qed.

Lemma validate_missing (df : DataFrame Cell) c :
  c ∈ required_cols → c ∉ columns df →
  validate df = Stopped (required_cols ∖ list_to_set (columns df)).
Proof.
  intros Hc Hn. unfold validate. case_decide as Hs; [| done].
  destruct Hn. apply (elem_of_list_to_set (C:=gset string)). auto.
Qed.

(** C9. When some required column is absent from the header the script
    stops, whatever the rest of it would compute, and the set it reports
    holds exactly the required names that are absent; when all five are
    present the frame goes on unchanged. *)
Theorem validate_required_columns (df : DataFrame Cell) :
  ((∃ c, c ∈ required_cols ∧ c ∉ columns df) →
     ∃ missing,
       validate df = Stopped missing
       ∧ (∀ c, c ∈ missing ↔ c ∈ required_cols ∧ c ∉ columns df)
       ∧ ∀ (Out : Type) (rest : DataFrame Cell → Out),
           run rest df = Stopped missing)
  ∧ ((∀ c, c ∈ required_cols → c ∈ columns df) →
       validate df = Continue df
       ∧ ∀ (Out : Type) (rest : DataFrame Cell → Out),
           run rest df = Continue (rest df)).
Proof.
  split.
  - intros (c & Hc & Hn).
    exists (required_cols ∖ list_to_set (columns df)).
    pose proof (validate_missing df c Hc Hn) as Hv.
    split; [done |]. split.
    + intros c'. rewrite elem_of_difference, elem_of_list_to_set. done.
    + intros Out rest. unfold run. by rewrite Hv.
  - intros H. pose proof (validate_ok df H) as Hv.
    split; [done |]. intros Out rest. unfold run. by rewrite Hv.
Qed.

End LoaderFacts.

Lemma validate_required_columns_witness :
  let bad := Loader.mkDataFrame (Cell := Z) ["InvoiceNo"; "Quantity"; "Country"] [[1; 2; 3]] in
  let good := Loader.mkDataFrame (Cell := Z)
      ["InvoiceNo"; "StockCode"; "Quantity"; "InvoiceDate"; "UnitPrice"; "CustomerID"]
      [[1; 2; 3; 4; 5; 6]] in
  (∃ missing, Loader.validate bad = Loader.Stopped missing
     ∧ (∀ c, c ∈ missing ↔ c ∈ Loader.required_cols ∧ c ∉ Loader.columns bad)
     ∧ ∀ (Out : Type) (rest : Loader.DataFrame Z → Out),
         Loader.run rest bad = Loader.Stopped missing)
  ∧ (Loader.validate good = Loader.Continue good
     ∧ ∀ (Out : Type) (rest : Loader.DataFrame Z → Out),
         Loader.run rest good = Loader.Continue (rest good)).
Proof.
  intros bad good. split.
  - apply (proj1 (validate_required_columns bad)).
    exists "CustomerID". split; [by vm_compute |].
    unfold bad; cbn. rewrite !elem_of_cons, elem_of_nil. intros H.
    repeat (destruct H as [H | H]; [discriminate H |]). done.
  - apply (proj2 (validate_required_columns good)).
    intros c. unfold Loader.required_cols, good; cbn.
    rewrite !elem_of_union, !elem_of_singleton, !elem_of_cons.
    intros H. repeat (destruct H as [H | H]); subst; auto 10.
Defined.

(** ** The aggregation *)

Section RfmFacts.
Import Frame Rfm.

Lemma foldl_max_spec (l : list Z) (a : Z) :
  (foldl Z.max a l = a ∨ foldl Z.max a l ∈ l)
  ∧ a ≤ foldl Z.max a l
  ∧ ∀ x, x ∈ l → x ≤ foldl Z.max a l.
Proof.
  revert a. induction l as [| b l IH]; intros a; cbn.
  - split; [by left |]. split; [lia |]. intros x Hx. by apply elem_of_nil in Hx.
  - destruct (IH (a `max` b)) as (Hin & Hle & Hall). split; [| split].
    + destruct Hin as [-> | Hin].
      * destruct (Z.max_spec a b) as [[_ ->] | [_ ->]]; [right; left | by left].
      * right. by right.
    + lia.
    + intros x [-> | Hx]%elem_of_cons; [lia | auto].
Qed.

Lemma series_max_Some (l : list Z) (m : Z) :
  series_max l = Some m ↔ m ∈ l ∧ ∀ x, x ∈ l → x ≤ m.
Proof.
  destruct l as [| a l]; cbn.
  - split; [done |]. intros [H _]. by apply elem_of_nil in H.
  - destruct (foldl_max_spec l a) as (Hin & Hle & Hall). split.
    + intros [= <-]. split.
      * destruct Hin as [-> | Hin]; [left | by right].
      * intros x [-> | Hx]%elem_of_cons; auto.
    + intros [Hm Hub]. f_equal. apply Z.le_antisymm.
      * destruct Hin as [-> | Hin]; apply Hub; [left | by right].
      * apply elem_of_cons in Hm as [-> | Hm]; auto.
Qed.

Lemma series_max_is_Some (l : list Z) : l ≠ [] → is_Some (series_max l).
Proof. destruct l; [done | by eexists]. Qed.






Lemma elem_of_group_keys (df : list Row) (k : Z) :
  k ∈ group_keys df ↔ ∃ r, r ∈ df ∧ CustomerID r = k.
Proof.
  unfold group_keys.
  rewrite merge_sort_Permutation, elem_of_remove_dups, list_elem_of_fmap.
  split; [intros (r & -> & Hr) | intros (r & Hr & <-)]; eauto.
Qed.

Lemma NoDup_group_keys (df : list Row) : NoDup (group_keys df).
Proof.
  unfold group_keys. rewrite merge_sort_Permutation. apply NoDup_remove_dups.
Qed.




(** The aggregation of a key of the table: its group is not empty, its
    last date is at most the last date of the table. *)
Lemma agg_group_key (df : list Row) (k : Z) :
  k ∈ group_keys df →
  ∃ top last,
    series_max (InvoiceDate <$> df) = Some top
    ∧ series_max (InvoiceDate <$> group df k) = Some last
    ∧ last ≤ top
    ∧ agg_group (rfm_ref_date df) k (group df k)
      = Some {| rfm_CustomerID := k;
                Recency := days (top + day - last);
                Frequency := nunique (InvoiceNo <$> group df k);
                Monetary := series_sum (TotalPrice <$> group df k) |}.
Proof.
  intros (r & Hr & Hk)%elem_of_group_keys.
  assert (r ∈ group df k) as Hg by (by apply list_elem_of_filter).
  destruct (series_max_is_Some (InvoiceDate <$> df)) as [top Htop].
  { intros Hnil. apply fmap_nil_inv in Hnil. subst. by apply elem_of_nil in Hr. }
  destruct (series_max_is_Some (InvoiceDate <$> group df k)) as [last Hlast].
  { intros Hnil. apply fmap_nil_inv in Hnil. rewrite Hnil in Hg.
    by apply elem_of_nil in Hg. }
  exists top, last. split; [done |]. split; [done |]. split.
  - apply series_max_Some in Htop as [_ Hub]. apply series_max_Some in Hlast as [Hin _].
    apply Hub. apply list_elem_of_fmap in Hin as (r' & -> & Hr').
    apply list_elem_of_fmap_2. by apply list_elem_of_filter in Hr' as [_ ?].
  - unfold agg_group, rfm_ref_date. rewrite Htop, Hlast. done.
Qed.

Lemma rfm_table_rows (df : list Row) (rfm : list RfmRow) :
  rfm_table df = Some rfm →
  Forall2 (λ k c, agg_group (rfm_ref_date df) k (group df k) = Some c)
    (group_keys df) rfm.
Proof. unfold rfm_table. apply mapM_Some_1. Qed.

Lemma rfm_table_total (df : list Row) : is_Some (rfm_table df).
Proof.
  unfold rfm_table. apply mapM_is_Some, Forall_forall. intros k Hk. cbn.
  destruct (agg_group_key df k Hk) as (? & ? & _ & _ & _ & ->). by eexists.
Qed.

Lemma rfm_table_ids (df : list Row) (rfm : list RfmRow) :
  rfm_table df = Some rfm → rfm_CustomerID <$> rfm = group_keys df.
Proof.
  intros H%rfm_table_rows. induction H as [| k c ks cs Hc _ IH]; [done |].
  cbn. f_equal; [| done].
  unfold agg_group in Hc. by simplify_option_eq.
Qed.

Lemma day_pos : 0 < day.
Proof. by vm_compute. Qed.

(** C4. The aggregation always returns a table, and with the reference
    date one day after the last invoice date of the cleaned table, the
    Recency of every customer, in whole days, is not negative. *)
Theorem recency_nonnegative (df : list Row) :
  ∃ rfm, rfm_table df = Some rfm ∧ Forall (λ c, 0 ≤ Recency c) rfm.
Proof.
  destruct (rfm_table_total df) as [rfm Hrfm]. exists rfm. split; [done |].
  apply rfm_table_rows in Hrfm. apply Forall_forall. intros c Hc.
  apply list_elem_of_lookup in Hc as [i Hi].
  destruct (Forall2_lookup_r _ _ _ _ _ Hrfm Hi) as (k & Hk & Hagg).
  apply list_elem_of_lookup_2 in Hk.
  destruct (agg_group_key df k Hk) as (top & last & _ & _ & Hle & Heq).
  rewrite Heq in Hagg. injection Hagg as <-. cbn. unfold days.
  apply Z.div_pos; [| apply day_pos]. pose proof day_pos. lia.
Qed.


End RfmFacts.

(** ** Quantile binning *)

Section QcutFacts.
Import Qcut.
Local Open Scope Q_scope.

Lemma searchsorted_left_mono (bins : list Q) (v w : Q) :
  v <= w → (searchsorted_left bins v ≤ searchsorted_left bins w)%nat.
Proof.
  intros Hvw. induction bins as [| b bins IH]; cbn; [done |].
  repeat case_decide; try lia. lra.
Qed.

(** Among cells that fall inside the bins, a larger value never gets a
    smaller bin. *)
Lemma bin_index_mono (bins : list Q) (v w : Q) :
  v <= w → bin_index bins v ≠ 0%nat → bin_index bins w ≠ 0%nat →
  (bin_index bins v ≤ bin_index bins w)%nat.
Proof.
  unfold bin_index. intros Hvw Hv Hw.
  destruct (decide (v == nth 0 bins 0)) as [Hv0 | Hv0]; [lia |].
  destruct (decide (w == nth 0 bins 0)) as [Hw0 | Hw0].
  - destruct bins as [| b bins]; cbn in *; [done |].
    case_decide; [lra | done].
  - by apply searchsorted_left_mono.
Qed.

Lemma cut_label_Some (bins : list Q) (labels : list Z) (v : Q) (z : Z) :
  cut_label bins labels v = Some z →
  bin_index bins v ≠ 0%nat
  ∧ bin_index bins v ≠ length bins
  ∧ labels !! (bin_index bins v - 1)%nat = Some z.
Proof. unfold cut_label. case_decide; [done |]. intros ?. naive_solver. Qed.

Lemma qcut_Some (x : list Q) (q : nat) (labels : list Z) (scores : list Z) :
  qcut x q labels = Some scores →
  ∃ bins,
    quantile_bins x q = Some bins
    ∧ length labels = (length bins - 1)%nat
    ∧ Forall2 (λ v z, cut_label bins labels v = Some z) x scores.
Proof.
  unfold qcut, bins_to_cuts. intros H.
  destruct (quantile_bins x q) as [bins |]; [| done]. cbn in H.
  repeat case_decide; try done.
  exists bins. split; [done |]. split; [lia |]. by apply mapM_Some_1.
Qed.

Lemma qcut_length (x : list Q) (q : nat) (labels scores : list Z) :
  qcut x q labels = Some scores → length scores = length x.
Proof.
  intros (bins & _ & _ & H)%qcut_Some. symmetry. by eapply Forall2_length.
Qed.

(** Every score is one of the labels. *)
Lemma qcut_label (x : list Q) (q : nat) (labels scores : list Z) (z : Z) :
  qcut x q labels = Some scores → z ∈ scores → z ∈ labels.
Proof.
  intros (bins & _ & _ & H)%qcut_Some [i Hi]%list_elem_of_lookup.
  destruct (Forall2_lookup_r _ _ _ _ _ H Hi) as (v & _ & Hc).
  apply cut_label_Some in Hc as (_ & _ & Hl).
  by eapply list_elem_of_lookup_2.
Qed.

(** Scores follow the values: the label of the larger value sits at the
    same or a later position of the label list. *)
Lemma qcut_mono (x : list Q) (q : nat) (labels scores : list Z)
    (i j : nat) (v w : Q) (a b : Z) :
  qcut x q labels = Some scores →
  x !! i = Some v → x !! j = Some w → v <= w →
  scores !! i = Some a → scores !! j = Some b →
  ∃ ia ib, (ia ≤ ib)%nat ∧ labels !! ia = Some a ∧ labels !! ib = Some b.
Proof.
  intros (bins & _ & _ & H)%qcut_Some Hv Hw Hvw Ha Hb.
  pose proof (Forall2_lookup_lr _ _ _ _ _ _ H Hv Ha) as Hca.
  pose proof (Forall2_lookup_lr _ _ _ _ _ _ H Hw Hb) as Hcb.
  apply cut_label_Some in Hca as (Hv0 & _ & Hla).
  apply cut_label_Some in Hcb as (Hw0 & _ & Hlb).
  pose proof (bin_index_mono bins v w Hvw Hv0 Hw0).
  eexists _, _. split; [| done]. lia.
Qed.

End QcutFacts.

(** ** Ranking with ties in order of appearance *)

Section RankFacts.
Import Qcut.

Lemma length_rank_first (x : list Z) : length (rank_first x) = length x.
Proof. unfold rank_first. apply length_imap. Qed.

Lemma rank_first_lookup (x : list Z) (i : nat) (v : Z) :
  x !! i = Some v →
  rank_first x !! i
  = Some (Z.of_nat (1 + length (filter (λ w, w < v) x)
                      + length (filter (λ w, w = v) (take i x)))).
Proof. intros H. unfold rank_first. by rewrite list_lookup_imap, H. Qed.

Lemma filter_take_lt {A} (P : A → Prop) `{∀ a, Decision (P a)}
    (x : list A) (i j : nat) (v : A) :
  x !! i = Some v → P v → (i < j)%nat →
  (length (filter P (take i x)) < length (filter P (take j x)))%nat.
Proof.
  revert i j. induction x as [| a x IH]; intros i j Hi Hv Hij; [done |].
  destruct j as [| j]; [lia |]. destruct i as [| i]; cbn in Hi.
  - injection Hi as ->. rewrite firstn_cons, filter_cons_True by done.
    cbn. lia.
  - specialize (IH i j Hi Hv ltac:(lia)).
    rewrite !firstn_cons, !filter_cons. case_decide; cbn; lia.
Qed.

Lemma filter_lt_eq_le (x : list Z) (v w : Z) :
  v < w →
  (length (filter (λ u, (u < v)%Z) x) + length (filter (λ u, u = v) x)
   ≤ length (filter (λ u, (u < w)%Z) x))%nat.
Proof.
  intros Hvw. induction x as [| a x IH]; [done |].
  rewrite !filter_cons. repeat case_decide; cbn; lia.
Qed.

(** Ranks follow the values, and among equal values the row order. *)
Lemma rank_first_lt (x : list Z) (i j : nat) (v w ri rj : Z) :
  x !! i = Some v → x !! j = Some w →
  rank_first x !! i = Some ri → rank_first x !! j = Some rj →
  v < w ∨ (v = w ∧ (i < j)%nat) → ri < rj.
Proof.
  intros Hi Hj Hri Hrj Hord.
  rewrite (rank_first_lookup x i v Hi) in Hri. injection Hri as <-.
  rewrite (rank_first_lookup x j w Hj) in Hrj. injection Hrj as <-.
  destruct Hord as [Hlt | [-> Hij]].
  - pose proof (filter_lt_eq_le x v w Hlt).
    pose proof (filter_take_lt (λ u, u = v) x i (length x) v Hi eq_refl
                  (lookup_lt_Some _ _ _ Hi)) as Hc.
    rewrite firstn_all in Hc. lia.
  - pose proof (filter_take_lt (λ u, u = w) x i j w Hi eq_refl Hij). lia.
Qed.

Lemma NoDup_rank_first (x : list Z) : NoDup (rank_first x).
Proof.
  apply NoDup_alt. intros i j r Hi Hj.
  destruct (lookup_lt_is_Some_2 x i) as [v Hv].
  { rewrite <- length_rank_first. by eapply lookup_lt_Some. }
  destruct (lookup_lt_is_Some_2 x j) as [w Hw].
  { rewrite <- length_rank_first. by eapply lookup_lt_Some. }
  destruct (Z.lt_trichotomy v w) as [Hlt | [Heq | Hgt]].
  - pose proof (rank_first_lt x i j v w r r Hv Hw Hi Hj (or_introl Hlt)). lia.
  - destruct (Nat.lt_trichotomy i j) as [Hij | [Hij | Hij]]; [| done |].
    + pose proof (rank_first_lt x i j v w r r Hv Hw Hi Hj (or_intror (conj Heq Hij))). lia.
    + pose proof (rank_first_lt x j i w v r r Hw Hv Hj Hi
                    (or_intror (conj (eq_sym Heq) Hij))). lia.
  - pose proof (rank_first_lt x j i w v r r Hw Hv Hj Hi (or_introl Hgt)). lia.
Qed.

Lemma filter_lt_eq_length (x : list Z) (v : Z) :
  (length (filter (λ u, (u < v)%Z) x) + length (filter (λ u, u = v) x)
   ≤ length x)%nat.
Proof.
  induction x as [| a x IH]; [done |].
  rewrite !filter_cons. repeat case_decide; cbn; lia.
Qed.

(** Ranks run from 1 to the number of rows. *)
Lemma rank_first_range (x : list Z) (r : Z) :
  r ∈ rank_first x → 1 ≤ r ≤ Z.of_nat (length x).
Proof.
  intros [i Hi]%list_elem_of_lookup.
  destruct (lookup_lt_is_Some_2 x i) as [v Hv].
  { rewrite <- length_rank_first. by eapply lookup_lt_Some. }
  rewrite (rank_first_lookup x i v Hv) in Hi. injection Hi as <-.
  pose proof (filter_lt_eq_length x v).
  pose proof (filter_take_lt (λ u, u = v) x i (length x) v Hv eq_refl
                (lookup_lt_Some _ _ _ Hv)) as Hc.
  rewrite firstn_all in Hc. lia.
Qed.

End RankFacts.

(** ** Quantile edges and equal-frequency bins *)

Section QuantileFacts.
Import Qcut.
Local Open Scope Q_scope.

Lemma StronglySorted_lookup_lt {A} (R : relation A) (s : list A)
    (i j : nat) (a b : A) :
  StronglySorted R s → (i < j)%nat → s !! i = Some a → s !! j = Some b → R a b.
Proof.
  intros Hs. revert i j. induction Hs as [| c s Hs IH Hall]; intros i j Hij Hi Hj.
  - done.
  - destruct j as [| j]; [lia |]. cbn in Hj. destruct i as [| i]; cbn in Hi.
    + injection Hi as ->. eapply Forall_forall; [done |].
      by eapply list_elem_of_lookup_2.
    + eapply (IH i j); [lia | done ..].
Qed.

Lemma sorted_lookup_le (s : list Q) (i j : nat) (a b : Q) :
  StronglySorted Qle s → (i ≤ j)%nat → s !! i = Some a → s !! j = Some b → a <= b.
Proof.
  intros Hs Hij Hi Hj. destruct (decide (i = j)) as [-> | Hne].
  - rewrite Hi in Hj. injection Hj as ->. apply Qle_refl.
  - eapply (StronglySorted_lookup_lt Qle s i j); [done | lia | done ..].
Qed.

Lemma weight_bounds (m : nat) :
  (m < 5)%nat → 0 <= (Z.of_nat m # 5) ∧ (Z.of_nat m # 5) < 1.
Proof. intros Hm. unfold Qle, Qlt; cbn. lia. Qed.

Lemma weight_mono (m m' : nat) :
  (m ≤ m')%nat → (Z.of_nat m # 5) <= (Z.of_nat m' # 5).
Proof. intros Hm. unfold Qle; cbn. lia. Qed.

(** The edge at [k/5]: interpolation between two neighbours of the
    sorted values. *)
Lemma quantile_5 (s : list Q) (k : nat) (e : Q) :
  quantile s 5 k = Some e →
  ∃ a b, s !! ((length s - 1) * k / 5)%nat = Some a
       ∧ s !! (((length s - 1) * k / 5 + 1) `min` (length s - 1))%nat = Some b
       ∧ e = a + (Z.of_nat (((length s - 1) * k) mod 5) # 5) * (b - a).
Proof.
  unfold quantile. intros H.
  destruct (s !! ((length s - 1) * k / 5)%nat) as [a |] eqn:Ha; [| done].
  destruct (s !! (((length s - 1) * k / 5 + 1) `min` (length s - 1))%nat)
    as [b |] eqn:Hb; [| done].
  cbn in H. injection H as <-. by exists a, b.
Qed.

Lemma lerp_bounds (a b g : Q) :
  a <= b → 0 <= g → g < 1 →
  a <= a + g * (b - a) ∧ a + g * (b - a) <= b.
Proof. intros. split; nra. Qed.

Lemma lerp_lt (a b g : Q) : a < b → g < 1 → a + g * (b - a) < b.
Proof. intros. nra. Qed.

Lemma lerp_mono (a b g g' : Q) :
  a <= b → g <= g' → a + g * (b - a) <= a + g' * (b - a).
Proof. intros. nra. Qed.

(** The edges are ascending. *)
Lemma quantile_mono (s : list Q) (k k' : nat) (e e' : Q) :
  StronglySorted Qle s → (k ≤ k' ≤ 5)%nat →
  quantile s 5 k = Some e → quantile s 5 k' = Some e' → e <= e'.
Proof.
  intros Hs Hk (a & b & Ha & Hb & ->)%quantile_5 (a' & b' & Ha' & Hb' & ->)%quantile_5.
  set (n := length s) in *.
  assert ((n - 1) * k ≤ (n - 1) * k')%nat as Hpos by nia.
  pose proof (Nat.Div0.div_le_mono _ _ 5 Hpos) as Hlo.
  pose proof (Nat.Div0.div_mod ((n - 1) * k) 5) as Hd.
  pose proof (Nat.Div0.div_mod ((n - 1) * k') 5) as Hd'.
  pose proof (Nat.mod_upper_bound ((n - 1) * k) 5 ltac:(lia)) as Hm.
  pose proof (Nat.mod_upper_bound ((n - 1) * k') 5 ltac:(lia)) as Hm'.
  pose proof (lookup_lt_Some _ _ _ Ha) as Hlt.
  pose proof (lookup_lt_Some _ _ _ Ha') as Hlt'. fold n in Hlt, Hlt'.
  assert (a <= b) as Hab by (eapply sorted_lookup_le; [done | | done ..]; lia).
  assert (a' <= b') as Hab' by (eapply sorted_lookup_le; [done | | done ..]; lia).
  destruct (weight_bounds _ Hm) as [Hg0 Hg1].
  destruct (weight_bounds _ Hm') as [Hg0' Hg1'].
  destruct (decide ((n - 1) * k / 5 = (n - 1) * k' / 5)%nat) as [Heq | Hne].
  - rewrite <- Heq in Ha', Hb'. rewrite Ha in Ha'. rewrite Hb in Hb'.
    injection Ha' as <-. injection Hb' as <-.
    apply lerp_mono; [done |]. apply weight_mono. lia.
  - assert (b <= a') as Hba.
    { eapply sorted_lookup_le; [done | | done ..]. lia. }
    destruct (lerp_bounds a b _ Hab Hg0 Hg1) as [_ H1].
    destruct (lerp_bounds a' b' _ Hab' Hg0' Hg1') as [H2 _].
    lra.
Qed.

(** The lowest edge is the least value. *)
Lemma quantile_0 (s : list Q) (e v : Q) :
  StronglySorted Qle s → quantile s 5 0 = Some e → v ∈ s → e <= v.
Proof.
  intros Hs (a & b & Ha & Hb & ->)%quantile_5 [i Hi]%list_elem_of_lookup.
  rewrite Nat.mul_0_r in *. change (0 / 5)%nat with 0%nat in *.
  change (0 mod 5)%nat with 0%nat. change (Z.of_nat 0 # 5) with (0 # 5).
  assert (a <= v) by (eapply (sorted_lookup_le s 0 i); [done | lia | done ..]).
  assert ((0 # 5) == 0) as Hz by done. nra.
Qed.

Lemma filter_none {A} (P : A → Prop) `{∀ a, Decision (P a)} (l : list A) :
  Forall (λ a, ¬ P a) l → filter P l = [].
Proof.
  induction 1 as [| a l Ha _ IH]; [done |]. by rewrite filter_cons_False.
Qed.

(** In strictly ascending data, exactly the first [lo+1] values are at
    most a bound that separates positions [lo] and [lo+1]. *)
Lemma sorted_count_le (s : list Q) (lo : nat) (a t : Q) :
  StronglySorted Qlt s → s !! lo = Some a → a <= t →
  (∀ b, s !! S lo = Some b → t < b) →
  length (filter (λ v, v <= t) s) = S lo.
Proof.
  intros Hs. revert lo. induction Hs as [| c s Hs IH Hall]; intros lo Ha Hat Hnext.
  - done.
  - destruct lo as [| lo]; cbn in Ha.
    + injection Ha as ->. rewrite filter_cons_True by done. cbn. f_equal.
      rewrite filter_none; [done |].
      apply Forall_forall. intros y [i Hi]%list_elem_of_lookup.
      assert (t < y); [| lra].
      destruct i as [| i].
      * by apply Hnext.
      * destruct (lookup_lt_is_Some_2 s 0) as [b Hb].
        { apply lookup_lt_Some in Hi. lia. }
        pose proof (Hnext b Hb).
        pose proof (StronglySorted_lookup_lt Qlt s 0 (S i) b y Hs ltac:(lia) Hb Hi).
        lra.
    + assert (c < a).
      { eapply Forall_forall; [done |]. by eapply list_elem_of_lookup_2. }
      rewrite filter_cons_True by lra. cbn. f_equal.
      by apply IH.
Qed.

(** How many values lie at or below the edge at [k/5], when the values
    are pairwise different. *)
Lemma quantile_count (s : list Q) (k : nat) (e : Q) :
  StronglySorted Qlt s → quantile s 5 k = Some e →
  length (filter (λ v, v <= e) s) = S ((length s - 1) * k / 5).
Proof.
  intros Hs (a & b & Ha & Hb & ->)%quantile_5.
  set (n := length s) in *. set (lo := ((n - 1) * k / 5)%nat) in *.
  pose proof (Nat.mod_upper_bound ((n - 1) * k) 5 ltac:(lia)) as Hm.
  destruct (weight_bounds _ Hm) as [Hg0 Hg1].
  pose proof (lookup_lt_Some _ _ _ Ha) as Hlt. fold n in Hlt.
  destruct (decide (lo + 1 ≤ n - 1)%nat) as [Hin | Hout].
  - rewrite Nat.min_l in Hb by done.
    assert (a < b) as Hab.
    { eapply (StronglySorted_lookup_lt Qlt s lo (lo + 1)); [done | lia | done ..]. }
    apply (sorted_count_le s lo a); [done | done | |].
    + apply lerp_bounds; [lra | done ..].
    + intros b'. replace (S lo) with (lo + 1)%nat by lia. rewrite Hb.
      intros [= <-]. by apply lerp_lt.
  - rewrite Nat.min_r in Hb by lia.
    assert (lo = n - 1)%nat as Hlo by lia. rewrite <- Hlo, Ha in Hb.
    injection Hb as <-.
    apply (sorted_count_le s lo a); [done | done | nra |].
    intros b' Hb'. apply lookup_lt_Some in Hb'. fold n in Hb'. lia.
Qed.

(** Sorting pairwise different values gives strictly ascending ones. *)
Lemma sorted_distinct (x : list Q) :
  NoDupA Qeq x → StronglySorted Qlt (merge_sort Qle x).
Proof.
  intros Hnd.
  assert (NoDupA Qeq (merge_sort Qle x)) as Hnd'.
  { eapply (PermutationA_preserves_NoDupA Q_Setoid); [| done].
    apply Permutation_PermutationA; [apply Q_Setoid |].
    symmetry. apply merge_sort_Permutation. }
  pose proof (StronglySorted_merge_sort Qle x) as Hs.
  induction Hs as [| c s Hs IH Hall]; [constructor |].
  inversion_clear Hnd' as [| ? ? Hnotin Hnd''].
  constructor; [by apply IH |].
  apply Forall_forall. intros y Hy.
  assert (c <= y) by (by eapply Forall_forall).
  destruct (Qeq_dec c y) as [Heq | Hne]; [| apply Qle_lteq in H as [? | ?]; done].
  destruct Hnotin. apply InA_alt. exists y. split; [done |].
  by apply list_elem_of_In.
Qed.

(** The six edges of a successful quintile cut. *)
Lemma quantile_bins_5 (x : list Q) (bins : list Q) :
  quantile_bins x 5 = Some bins →
  ∃ e0 e1 e2 e3 e4 e5,
    bins = [e0; e1; e2; e3; e4; e5]
    ∧ ∀ k e, bins !! k = Some e → quantile (merge_sort Qle x) 5 k = Some e.
Proof.
  unfold quantile_bins. intros H%mapM_Some_1.
  pose proof (Forall2_length _ _ _ H) as Hlen. cbn in Hlen.
  do 6 (destruct bins as [| ? bins]; [done |]). destruct bins; [| done].
  eexists _, _, _, _, _, _. split; [done |]. intros k e Hk.
  destruct (Forall2_lookup_r _ _ _ _ _ H Hk) as (k' & Hk' & Hq).
  apply lookup_seq in Hk' as [-> _]. done.
Qed.

(** With ascending edges and no value below the lowest, the bin of a
    value is at most [k] exactly when the value is at most edge [k]. *)
Lemma bin_index_le (e0 e1 e2 e3 e4 e5 v ek : Q) (k : nat) :
  e0 <= e1 → e1 <= e2 → e2 <= e3 → e3 <= e4 → e4 <= e5 → e0 <= v →
  [e0; e1; e2; e3; e4; e5] !! k = Some ek → (1 ≤ k)%nat →
  (bin_index [e0; e1; e2; e3; e4; e5] v ≤ k)%nat ↔ v <= ek.
Proof.
  intros H01 H12 H23 H34 H45 H0 Hk Hk1.
  unfold bin_index, searchsorted_left; cbn [nth].
  do 6 (destruct k as [| k]; [try lia; injection Hk as <-;
        repeat case_decide; split; intros; try lia; try lra |]).
  done.
Qed.

Lemma bin_index_pos (bins : list Q) (e0 v : Q) :
  bins !! 0%nat = Some e0 → e0 <= v → (1 ≤ bin_index bins v)%nat.
Proof.
  destruct bins as [| b bins]; [done |]. intros [= ->] Hv.
  unfold bin_index; cbn. repeat case_decide; try lia. 
  assert (v == e0) by lra. done.
Qed.

Lemma filter_length_split {A} (f : A → nat) (k : nat) (x : list A) :
  length (filter (λ v, (f v ≤ S k)%nat) x)
  = (length (filter (λ v, (f v ≤ k)%nat) x)
     + length (filter (λ v, f v = S k) x))%nat.
Proof.
  induction x as [| a x IH]; [done |].
  rewrite !filter_cons. repeat case_decide; cbn; lia.
Qed.

Lemma filter_length_ext {A} (P P' : A → Prop)
    `{∀ a, Decision (P a)} `{∀ a, Decision (P' a)} (l : list A) :
  (∀ a, a ∈ l → P a ↔ P' a) → length (filter P l) = length (filter P' l).
Proof.
  induction l as [| a l IH]; intros Hext; [done |].
  rewrite !filter_cons.
  pose proof (Hext a ltac:(left)) as Ha.
  assert (length (filter P l) = length (filter P' l)) as IH'.
  { apply IH. intros b Hb. apply Hext. by right. }
  repeat case_decide; cbn; try lia; tauto.
Qed.

Lemma Forall2_filter_length {A B} (R : A → B → Prop) (P : A → Prop)
    (P' : B → Prop) `{∀ a, Decision (P a)} `{∀ b, Decision (P' b)}
    (l : list A) (k : list B) :
  Forall2 R l k → (∀ a b, R a b → P a ↔ P' b) →
  length (filter P l) = length (filter P' k).
Proof.
  intros HR Hext. induction HR as [| a b l k Hab _ IH]; [done |].
  rewrite !filter_cons. pose proof (Hext a b Hab).
  repeat case_decide; cbn; try lia; tauto.
Qed.

(** The number of values in bin [k+1] of a quintile cut of pairwise
    different values, in terms of the positions [(n-1)*k/5]. *)
Lemma qcut_bin_count (x bins : list Q) (k : nat) :
  NoDupA Qeq x → quantile_bins x 5 = Some bins → (k < 5)%nat →
  length (filter (λ v, bin_index bins v = S k) x)
  = match k with
    | O => S ((length x - 1) * 1 / 5)
    | S _ => ((length x - 1) * S k / 5 - (length x - 1) * k / 5)%nat
    end.
Proof.
  intros Hnd Hbins Hk.
  destruct (quantile_bins_5 x bins Hbins) as (e0 & e1 & e2 & e3 & e4 & e5 & -> & He).
  set (bins := [e0; e1; e2; e3; e4; e5]) in *.
  set (s := merge_sort Qle x) in *.
  assert (s ≡ₚ x) as Hperm by apply merge_sort_Permutation.
  assert (length s = length x) as Hlen by (by rewrite Hperm).
  pose proof (StronglySorted_merge_sort Qle x) as Hle. fold s in Hle.
  pose proof (sorted_distinct x Hnd) as Hlt. fold s in Hlt.
  assert (∀ i j a b, (i ≤ j ≤ 5)%nat → bins !! i = Some a → bins !! j = Some b → a <= b)
    as Hmono.
  { intros i j a b Hij Ha Hb. eapply (quantile_mono s i j); eauto. }
  assert (∀ v, v ∈ x → e0 <= v) as Hmin.
  { intros v Hv. apply (quantile_0 s); [done | by apply (He 0%nat) | by rewrite Hperm]. }
  assert (∀ j e, (1 ≤ j)%nat → bins !! j = Some e →
            length (filter (λ v, (bin_index bins v ≤ j)%nat) x)
            = S ((length x - 1) * j / 5)) as Hcount.
  { intros j e Hj Hje.
    rewrite (filter_length_ext _ (λ v, v <= e)).
    - rewrite <- Hperm. apply quantile_count; [done | by apply He].
    - intros v Hv. apply (bin_index_le e0 e1 e2 e3 e4 e5 v e j); try done.
      + apply (Hmono 0 1)%nat; [lia | done ..].
      + apply (Hmono 1 2)%nat; [lia | done ..].
      + apply (Hmono 2 3)%nat; [lia | done ..].
      + apply (Hmono 3 4)%nat; [lia | done ..].
      + apply (Hmono 4 5)%nat; [lia | done ..].
      + by apply Hmin. }
  destruct (lookup_lt_is_Some_2 bins (S k)) as [e He']; [cbn; lia |].
  pose proof (Hcount (S k) e ltac:(lia) He') as HS.
  rewrite filter_length_split in HS.
  destruct k as [| k].
  - rewrite (filter_length_ext (λ v, (bin_index bins v ≤ 0)%nat) (λ _, False)) in HS.
    + rewrite filter_none in HS by (apply Forall_forall; intros ? ? []).
      cbn [length] in HS. rewrite Nat.add_0_l in HS. rewrite HS. done.
    + intros v Hv. pose proof (bin_index_pos bins e0 v eq_refl (Hmin v Hv)). lia.
  - destruct (lookup_lt_is_Some_2 bins (S k)) as [e' He'']; [cbn; lia |].
    pose proof (Hcount (S k) e' ltac:(lia) He'') as HS'. lia.
Qed.

Lemma bin_count_within_one (n k : nat) :
  (k < 5)%nat →
  Binning.within_one_of_fifth
    match k with
    | O => S ((n - 1) * 1 / 5)
    | S _ => ((n - 1) * S k / 5 - (n - 1) * k / 5)%nat
    end n.
Proof.
  intros Hk. unfold Binning.within_one_of_fifth.
  do 5 (destruct k as [| k]; [quotients_by_5; lia |]). lia.
Qed.

(** Quintile scores of pairwise different values are spread evenly: each
    label is given to [n/5] of the [n] values, up to one. *)
Lemma qcut_equal_frequency (x : list Q) (labels scores : list Z) (z : Z) :
  NoDupA Qeq x → NoDup labels → qcut x 5 labels = Some scores → z ∈ labels →
  Binning.within_one_of_fifth (Binning.frequency z scores) (length scores).
Proof.
  intros Hnd Hlab Hq [k Hk]%list_elem_of_lookup.
  rewrite (qcut_length x 5 labels scores Hq).
  destruct (qcut_Some x 5 labels scores Hq) as (bins & Hbins & Hlen & Hcut).
  destruct (quantile_bins_5 x bins Hbins) as (e0 & e1 & e2 & e3 & e4 & e5 & Heq & _).
  assert (k < 5)%nat as Hk5.
  { apply lookup_lt_Some in Hk. rewrite Hlen, Heq in Hk. cbn in Hk. lia. }
  unfold Binning.frequency.
  rewrite <- (Forall2_filter_length
                (λ v s, cut_label bins labels v = Some s)
                (λ v, bin_index bins v = S k) (λ s, s = z) x scores Hcut).
  - rewrite (qcut_bin_count x bins k Hnd Hbins Hk5).
    by apply bin_count_within_one.
  - intros v s (Hpos & _ & Hs)%cut_label_Some. split.
    + intros Hi. rewrite Hi in Hs. replace (S k - 1)%nat with k in Hs by lia.
      congruence.
    + intros ->. pose proof (NoDup_lookup _ _ _ _ Hlab Hs Hk). lia.
Qed.

(** *** When the cut succeeds *)

Lemma quantile_is_Some (s : list Q) (k : nat) :
  s ≠ [] → (k ≤ 5)%nat → is_Some (quantile s 5 k).
Proof.
  intros Hs Hk. unfold quantile.
  assert (0 < length s)%nat as Hn by (destruct s; [done | cbn; lia]).
  set (n := length s) in *.
  assert ((n - 1) * k / 5 ≤ n - 1)%nat as Hlo.
  { apply Nat.Div0.div_le_upper_bound. nia. }
  destruct (lookup_lt_is_Some_2 s ((n - 1) * k / 5)) as [a ->]; [lia |].
  destruct (lookup_lt_is_Some_2 s (((n - 1) * k / 5 + 1) `min` (n - 1)))
    as [b ->]; [lia |].
  by eexists.
Qed.

Lemma quantile_bins_is_Some (x : list Q) :
  x ≠ [] → is_Some (quantile_bins x 5).
Proof.
  intros Hx. unfold quantile_bins. apply mapM_is_Some, Forall_forall.
  intros k [_ Hk]%elem_of_seq. apply quantile_is_Some; [| lia].
  intros Hnil. apply Hx, Permutation_nil_r.
  rewrite <- Hnil. symmetry. apply merge_sort_Permutation.
Qed.

(** The highest edge is the greatest value. *)
Lemma quantile_last (s : list Q) (e v : Q) :
  StronglySorted Qle s → quantile s 5 5 = Some e → v ∈ s → v <= e.
Proof.
  intros Hs (a & b & Ha & Hb & ->)%quantile_5 [i Hi]%list_elem_of_lookup.
  rewrite Nat.div_mul in Ha, Hb by done.
  rewrite Nat.Div0.mod_mul. change (Z.of_nat 0 # 5) with (0 # 5).
  assert (v <= a).
  { eapply (sorted_lookup_le s i (length s - 1)); [done | | done ..].
    apply lookup_lt_Some in Hi. lia. }
  assert ((0 # 5) == 0) as Hz by done. nra.
Qed.

Lemma cut_label_is_Some (e0 e1 e2 e3 e4 e5 v : Q) (labels : list Z) :
  e0 <= e1 → e1 <= e2 → e2 <= e3 → e3 <= e4 → e4 <= e5 →
  e0 <= v → v <= e5 → length labels = 5%nat →
  is_Some (cut_label [e0; e1; e2; e3; e4; e5] labels v).
Proof.
  intros H01 H12 H23 H34 H45 H0 H5 Hlen. unfold cut_label.
  pose proof (bin_index_pos [e0; e1; e2; e3; e4; e5] e0 v eq_refl H0) as Hpos.
  pose proof (proj2 (bin_index_le e0 e1 e2 e3 e4 e5 v e5 5
                       H01 H12 H23 H34 H45 H0 eq_refl ltac:(lia)) H5) as Hle.
  case_decide as Hd; [cbn in Hd; lia |].
  apply lookup_lt_is_Some_2. lia.
Qed.

(** A non-empty column is cut into five labelled bins exactly when its
    six quantile edges are pairwise different. *)
Lemma qcut_is_Some (x bins : list Q) (labels : list Z) :
  quantile_bins x 5 = Some bins → NoDup labels → length labels = 5%nat →
  is_Some (qcut x 5 labels) ↔ length (unique bins) = length bins.
Proof.
  intros Hbins Hnd Hlen.
  destruct (quantile_bins_5 x bins Hbins)
    as (e0 & e1 & e2 & e3 & e4 & e5 & Heq & He).
  unfold qcut, bins_to_cuts. rewrite Hbins. cbn [mbind option_bind].
  assert (length (unique bins) ≤ length bins)%nat as Hu.
  { clear. induction bins as [| b bins IH]; cbn; [done |].
    pose proof (length_filter (λ y, ¬ (y == b)%Q) (unique bins)). lia. }
  assert (length bins = 6%nat) as H6 by (by rewrite Heq).
  case_decide as Hd.
  - split; [intros [? ?]; done | lia].
  - rewrite decide_False by tauto. rewrite decide_False by lia.
    split; [lia |]. intros _.
    apply mapM_is_Some, Forall_forall. intros v Hv.
    set (s := merge_sort Qle x) in *.
    assert (v ∈ s) as Hvs by (unfold s; by rewrite merge_sort_Permutation).
    pose proof (StronglySorted_merge_sort Qle x) as Hs. fold s in Hs.
    assert (∀ i j a b, (i ≤ j ≤ 5)%nat → bins !! i = Some a → bins !! j = Some b
              → (a <= b)%Q) as Hmono.
    { intros i j a b Hij Ha Hb. eapply (quantile_mono s i j); eauto. }
    subst bins. cbn.
    apply cut_label_is_Some; try done.
    + apply (Hmono 0 1)%nat; [lia | done ..].
    + apply (Hmono 1 2)%nat; [lia | done ..].
    + apply (Hmono 2 3)%nat; [lia | done ..].
    + apply (Hmono 3 4)%nat; [lia | done ..].
    + apply (Hmono 4 5)%nat; [lia | done ..].
    + apply (quantile_0 s); [done | by apply (He 0%nat) | done].
    + apply (quantile_last s); [done | by apply (He 5%nat) | done].
Qed.

Lemma weight_strict_mono (m m' : nat) :
  (m < m')%nat → (Z.of_nat m # 5) < (Z.of_nat m' # 5).
Proof. intros Hm. unfold Qlt; cbn. lia. Qed.

(** Two or more pairwise different values have strictly ascending
    edges. *)
Lemma quantile_strict_mono (s : list Q) (k k' : nat) (e e' : Q) :
  StronglySorted Qlt s → (2 ≤ length s)%nat → (k < k' ≤ 5)%nat →
  quantile s 5 k = Some e → quantile s 5 k' = Some e' → e < e'.
Proof.
  intros Hs Hn Hk (a & b & Ha & Hb & ->)%quantile_5 (a' & b' & Ha' & Hb' & ->)%quantile_5.
  set (n := length s) in *.
  assert ((n - 1) * k < (n - 1) * k')%nat as Hpos by nia.
  assert ((n - 1) * k' ≤ (n - 1) * 5)%nat as Hpos' by nia.
  pose proof (Nat.Div0.div_le_mono _ _ 5 (Nat.lt_le_incl _ _ Hpos)) as Hlo.
  pose proof (Nat.Div0.div_mod ((n - 1) * k) 5) as Hd.
  pose proof (Nat.Div0.div_mod ((n - 1) * k') 5) as Hd'.
  pose proof (Nat.mod_upper_bound ((n - 1) * k) 5 ltac:(lia)) as Hm.
  pose proof (Nat.mod_upper_bound ((n - 1) * k') 5 ltac:(lia)) as Hm'.
  pose proof (lookup_lt_Some _ _ _ Ha) as Hlt.
  pose proof (lookup_lt_Some _ _ _ Ha') as Hlt'. fold n in Hlt, Hlt'.
  destruct (weight_bounds _ Hm) as [Hg0 Hg1].
  destruct (weight_bounds _ Hm') as [Hg0' Hg1'].
  assert (StronglySorted Qle s) as Hle.
  { clear -Hs. induction Hs as [| c s Hs IH Hall]; constructor; [done |].
    eapply Forall_impl; [done |]. intros y. apply Qlt_le_weak. }
  assert (a' <= b') as Hab'
    by (eapply sorted_lookup_le; [done | | done ..]; lia).
  assert ((n - 1) * k / 5 + 1 ≤ n - 1)%nat as Hhi by lia.
  rewrite Nat.min_l in Hb by done.
  assert (a < b) as Hab.
  { eapply (StronglySorted_lookup_lt Qlt s ((n - 1) * k / 5) ((n - 1) * k / 5 + 1));
      [done | lia | done ..]. }
  destruct (decide ((n - 1) * k / 5 = (n - 1) * k' / 5)%nat) as [Heq | Hne].
  - rewrite <- Heq in Ha', Hb'. rewrite Nat.min_l in Hb' by done.
    rewrite Ha in Ha'. rewrite Hb in Hb'.
    injection Ha' as <-. injection Hb' as <-.
    assert ((Z.of_nat (((n - 1) * k) mod 5) # 5)
            < (Z.of_nat (((n - 1) * k') mod 5) # 5)) as Hg
      by (apply weight_strict_mono; lia).
    nra.
  - assert (b <= a') as Hba.
    { eapply sorted_lookup_le; [done | | done ..]. lia. }
    pose proof (lerp_lt a b _ Hab Hg1) as H1.
    destruct (lerp_bounds a' b' _ Hab' Hg0' Hg1') as [H2 _].
    lra.
Qed.

Lemma filter_all {A} (P : A → Prop) `{∀ a, Decision (P a)} (l : list A) :
  Forall P l → filter P l = l.
Proof.
  induction 1 as [| a l Ha _ IH]; [done |].
  by rewrite filter_cons_True, IH.
Qed.

Lemma unique_strictly_sorted (l : list Q) :
  StronglySorted Qlt l → unique l = l.
Proof.
  induction 1 as [| a l Hs IH Hall]; [done |]. cbn. rewrite IH. f_equal.
  apply filter_all. eapply Forall_impl; [done |].
  intros y Hy Heq. cbn in *. lra.
Qed.

(** Two or more pairwise different values are always accepted. *)
Lemma qcut_distinct_is_Some (x : list Q) (labels : list Z) :
  NoDupA Qeq x → (2 ≤ length x)%nat → NoDup labels → length labels = 5%nat →
  is_Some (qcut x 5 labels).
Proof.
  intros Hnd Hn Hlab Hlen.
  destruct (quantile_bins_is_Some x) as [bins Hbins].
  { intros ->. cbn in Hn. lia. }
  apply (qcut_is_Some x bins labels Hbins Hlab Hlen). f_equal.
  destruct (quantile_bins_5 x bins Hbins)
    as (e0 & e1 & e2 & e3 & e4 & e5 & -> & He).
  pose proof (sorted_distinct x Hnd) as Hs.
  assert (length (merge_sort Qle x) = length x) as Hl
    by (by rewrite merge_sort_Permutation).
  assert (∀ i a b, (i < 5)%nat →
            [e0; e1; e2; e3; e4; e5] !! i = Some a →
            [e0; e1; e2; e3; e4; e5] !! S i = Some b → a < b) as Hstep.
  { intros i a b Hi Ha Hb.
    eapply (quantile_strict_mono (merge_sort Qle x) i (S i)); eauto; lia. }
  apply unique_strictly_sorted, Sorted_StronglySorted; [apply _ |].
  repeat constructor;
    first [ apply (Hstep 0%nat); [lia | done ..]
          | apply (Hstep 1%nat); [lia | done ..]
          | apply (Hstep 2%nat); [lia | done ..]
          | apply (Hstep 3%nat); [lia | done ..]
          | apply (Hstep 4%nat); [lia | done ..] ].
Qed.

End QuantileFacts.

(** ** The scored table *)

Section PipelineFacts.
Import Frame Rfm Qcut Segment Pipeline Binning Tested.

Lemma score_rows_lookup (rfm : list RfmRow) (rs fs ms : list Z) (i : nat)
    (c : Customer) :
  score_rows rfm rs fs ms !! i = Some c →
  ∃ a r f m,
    rfm !! i = Some a ∧ rs !! i = Some r ∧ fs !! i = Some f ∧ ms !! i = Some m
    ∧ c = score_row a r f m.
Proof.
  revert rs fs ms i.
  induction rfm as [| a rfm IH]; intros [| r rs] [| f fs] [| m ms] i H;
    try done.
  destruct i as [| i]; cbn in H.
  - injection H as <-. by exists a, r, f, m.
  - destruct (IH _ _ _ _ H) as (a' & r' & f' & m' & ?). by exists a', r', f', m'.
Qed.

Lemma score_rows_columns (rfm : list RfmRow) (rs fs ms : list Z) :
  length rs = length rfm → length fs = length rfm → length ms = length rfm →
  metrics <$> score_rows rfm rs fs ms = rfm
  ∧ R_Score <$> score_rows rfm rs fs ms = rs
  ∧ F_Score <$> score_rows rfm rs fs ms = fs
  ∧ M_Score <$> score_rows rfm rs fs ms = ms.
Proof.
  revert rs fs ms.
  induction rfm as [| a rfm IH]; intros [| r rs] [| f fs] [| m ms] Hr Hf Hm;
    try done.
  cbn in Hr, Hf, Hm.
  destruct (IH rs fs ms) as (H1 & H2 & H3 & H4); [lia .. |].
  cbn. by rewrite H1, H2, H3, H4.
Qed.

Lemma score_Some (rfm : list RfmRow) (scored : list Customer) :
  score rfm = Some scored →
  ∃ rs fs ms,
    R_Score_col rfm = Some rs ∧ F_Score_col rfm = Some fs
    ∧ M_Score_col rfm = Some ms
    ∧ scored = score_rows rfm rs fs ms
    ∧ metrics <$> scored = rfm
    ∧ R_Score <$> scored = rs ∧ F_Score <$> scored = fs
    ∧ M_Score <$> scored = ms.
Proof.
  unfold score. intros H.
  destruct (R_Score_col rfm) as [rs |] eqn:Hr; [| done].
  destruct (F_Score_col rfm) as [fs |] eqn:Hf; [| done].
  destruct (M_Score_col rfm) as [ms |] eqn:Hm; [| done].
  cbn in H. injection H as <-. exists rs, fs, ms.
  do 4 (split; [done |]).
  apply score_rows_columns.
  - apply qcut_length in Hr. by rewrite Hr, length_fmap.
  - apply qcut_length in Hf. by rewrite Hf, length_fmap, length_rank_first, length_fmap.
  - apply qcut_length in Hm. by rewrite Hm, length_fmap.
Qed.

Lemma score_row_of (rfm : list RfmRow) (scored : list Customer) (c : Customer) :
  score rfm = Some scored → c ∈ scored →
  c = score_row (metrics c) (R_Score c) (F_Score c) (M_Score c).
Proof.
  intros (rs & fs & ms & _ & _ & _ & -> & _)%score_Some [i Hi]%list_elem_of_lookup.
  apply score_rows_lookup in Hi as (a & r & f & m & _ & _ & _ & _ & ->). done.
Qed.

Lemma label_range (labels : list Z) (z : Z) :
  labels = R_labels ∨ labels = F_labels →
  z ∈ labels ↔ 1 ≤ z ≤ 5.
Proof.
  intros [-> | ->]; unfold R_labels, F_labels;
    rewrite !elem_of_cons, elem_of_nil; lia.
Qed.

Lemma scores_range (rfm : list RfmRow) (scored : list Customer) :
  score rfm = Some scored → Forall scores_in_range scored.
Proof.
  intros (rs & fs & ms & Hr & Hf & Hm & _ & _ & Hrs & Hfs & Hms)%score_Some.
  apply Forall_forall. intros c Hc. unfold scores_in_range.
  split; [| split].
  - apply (label_range R_labels); [by left |].
    eapply qcut_label; [exact Hr |]. rewrite <- Hrs. by apply list_elem_of_fmap_2.
  - apply (label_range F_labels); [by right |].
    eapply qcut_label; [exact Hf |]. rewrite <- Hfs. by apply list_elem_of_fmap_2.
  - apply (label_range M_labels); [by right |].
    eapply qcut_label; [exact Hm |]. rewrite <- Hms. by apply list_elem_of_fmap_2.
Qed.

Lemma NoDupA_fmap {A} (f : A → Q) (l : list A) :
  (∀ a b, (f a == f b)%Q → a = b) → NoDup l → NoDupA Qeq (f <$> l).
Proof.
  intros Hinj. induction 1 as [| a l Hnotin _ IH]; cbn; constructor; [| done].
  intros (y & Hay & Hy)%InA_alt.
  apply list_elem_of_In, list_elem_of_fmap in Hy as (b & -> & Hb).
  apply Hinj in Hay as ->. done.
Qed.

Lemma NoDupA_inject_Z (l : list Z) : NoDup l → NoDupA Qeq (inject_Z <$> l).
Proof. apply NoDupA_fmap. intros a b. apply inject_Z_injective. Qed.


Lemma equal_frequency_qcut (x : list Q) (labels scores : list Z) :
  labels = R_labels ∨ labels = F_labels →
  NoDupA Qeq x → qcut x 5 labels = Some scores → equal_frequency scores.
Proof.
  intros Hl Hnd Hq z Hz.
  apply (qcut_equal_frequency x labels); [done | | done |].
  - destruct Hl as [-> | ->]; apply (bool_decide_unpack _); by vm_compute.
  - by apply label_range.
Qed.


Lemma R_labels_antitone (i j : nat) (a b : Z) :
  (i ≤ j)%nat → R_labels !! i = Some a → R_labels !! j = Some b → b ≤ a.
Proof.
  intros Hij Hi Hj. unfold R_labels in *.
  do 5 (destruct i as [| i]; [injection Hi as <-;
        do 5 (destruct j as [| j]; [try lia; injection Hj as <-; lia |]); done |]).
  done.
Qed.

Lemma F_labels_monotone (i j : nat) (a b : Z) :
  (i ≤ j)%nat → F_labels !! i = Some a → F_labels !! j = Some b → a ≤ b.
Proof.
  intros Hij Hi Hj. unfold F_labels in *.
  do 5 (destruct i as [| i]; [injection Hi as <-;
        do 5 (destruct j as [| j]; [try lia; injection Hj as <-; lia |]); done |]).
  done.
Qed.

Lemma R_Score_col_antitone (rfm : list RfmRow) (rs : list Z)
    (i j : nat) (a b : RfmRow) (ra rb : Z) :
  R_Score_col rfm = Some rs →
  rfm !! i = Some a → rfm !! j = Some b →
  rs !! i = Some ra → rs !! j = Some rb →
  Recency a ≤ Recency b → rb ≤ ra.
Proof.
  unfold R_Score_col. intros Hq Ha Hb Hra Hrb Hlt.
  destruct (qcut_mono _ 5 R_labels rs i j
              (inject_Z (Recency a)) (inject_Z (Recency b)) ra rb Hq)
    as (ia & ib & Hij & Hia & Hib); try done.
  - by rewrite list_lookup_fmap, Ha.
  - by rewrite list_lookup_fmap, Hb.
  - by rewrite <- Zle_Qle.
  - by eapply R_labels_antitone.
Qed.

(** C8.  Within one scored population a customer with a strictly smaller
    Recency never has a smaller R_Score; so for three customers A, B, C
    seen ever longer ago, R(A) >= R(B) >= R(C). *)
Theorem r_score_antitone (rfm : list RfmRow) (rs : list Z) :
  R_Score_col rfm = Some rs →
  (∀ (i j : nat) (a b : RfmRow) (ra rb : Z),
     rfm !! i = Some a → rfm !! j = Some b →
     rs !! i = Some ra → rs !! j = Some rb →
     Recency a < Recency b → rb ≤ ra)
  ∧ (∀ (i j k : nat) (a b c : RfmRow) (ra rb rc : Z),
       rfm !! i = Some a → rfm !! j = Some b → rfm !! k = Some c →
       rs !! i = Some ra → rs !! j = Some rb → rs !! k = Some rc →
       Recency a < Recency b → Recency b < Recency c →
       rb ≤ ra ∧ rc ≤ rb).
Proof.
  intros Hq.
  assert (∀ (i j : nat) (a b : RfmRow) (ra rb : Z),
     rfm !! i = Some a → rfm !! j = Some b →
     rs !! i = Some ra → rs !! j = Some rb →
     Recency a < Recency b → rb ≤ ra) as Hpair.
  { intros i j a b ra rb Ha Hb Hra Hrb Hlt.
    eapply (R_Score_col_antitone rfm rs i j a b); eauto. lia. }
  split; [exact Hpair |].
  intros i j k a b c ra rb rc Ha Hb Hc Hra Hrb Hrc Hab Hbc. split.
  - by eapply (Hpair i j a b).
  - by eapply (Hpair j k b c).
Qed.

Lemma F_Score_col_ties (rfm : list RfmRow) (fs : list Z)
    (i j : nat) (a b : RfmRow) (fa fb : Z) :
  F_Score_col rfm = Some fs →
  rfm !! i = Some a → rfm !! j = Some b →
  fs !! i = Some fa → fs !! j = Some fb →
  Frequency a < Frequency b ∨ (Frequency a = Frequency b ∧ (i < j)%nat) →
  fa ≤ fb.
Proof.
  unfold F_Score_col. intros Hq Ha Hb Hfa Hfb Hord.
  set (freq := Frequency <$> rfm) in *.
  assert (freq !! i = Some (Frequency a)) as Hi
    by (unfold freq; by rewrite list_lookup_fmap, Ha).
  assert (freq !! j = Some (Frequency b)) as Hj
    by (unfold freq; by rewrite list_lookup_fmap, Hb).
  pose proof (rank_first_lookup freq i _ Hi) as Hri.
  pose proof (rank_first_lookup freq j _ Hj) as Hrj.
  set (ri := Z.of_nat _) in Hri. set (rj := Z.of_nat _) in Hrj.
  pose proof (rank_first_lt freq i j _ _ ri rj Hi Hj Hri Hrj Hord) as Hlt.
  destruct (qcut_mono _ 5 F_labels fs i j (inject_Z ri) (inject_Z rj) fa fb Hq)
    as (ia & ib & Hij & Hia & Hib); try done.
  - by rewrite list_lookup_fmap, Hri.
  - by rewrite list_lookup_fmap, Hrj.
  - rewrite <- Zle_Qle. lia.
  - by eapply F_labels_monotone.
Qed.

(** With two or more customers the Frequency ranks are always cut into
    five bins: ranking removes the ties that would repeat a bin edge. *)
Lemma F_Score_col_is_Some (rfm : list RfmRow) :
  (2 ≤ length rfm)%nat → is_Some (F_Score_col rfm).
Proof.
  intros Hn. unfold F_Score_col. apply qcut_distinct_is_Some.
  - apply NoDupA_inject_Z, NoDup_rank_first.
  - by rewrite length_fmap, length_rank_first, length_fmap.
  - apply (bool_decide_unpack _); by vm_compute.
  - done.
Qed.


(** C7.  F_Score is the quintile cut, with ascending labels 1..5, of the
    ranks of the Frequency column; the ranks are the numbers 1..n, each
    used once, ordered by Frequency and, among equal Frequencies, by row
    position.  So of two customers with the same Frequency the earlier
    row never has the larger F_Score, each F_Score value is given to a
    fifth of the customers up to one, the cut succeeds on any table of
    two or more customers, and there are tables where the scores of two
    customers with equal Frequency differ and follow the row order. *)
Theorem f_score_ties_by_row_order :
  (∀ rfm : list RfmRow,
     F_Score_col rfm
     = qcut (inject_Z <$> rank_first (Frequency <$> rfm)) 5 [1; 2; 3; 4; 5])
  ∧ (∀ x : list Z,
       NoDup (rank_first x)
       ∧ (∀ r, r ∈ rank_first x → 1 ≤ r ≤ Z.of_nat (length x))
       ∧ ∀ (i j : nat) (v w ri rj : Z),
           x !! i = Some v → x !! j = Some w →
           rank_first x !! i = Some ri → rank_first x !! j = Some rj →
           v < w ∨ (v = w ∧ (i < j)%nat) → ri < rj)
  ∧ (∀ (rfm : list RfmRow) (fs : list Z) (i j : nat) (a b : RfmRow) (fa fb : Z),
       F_Score_col rfm = Some fs →
       rfm !! i = Some a → rfm !! j = Some b →
       fs !! i = Some fa → fs !! j = Some fb →
       Frequency a = Frequency b → (i < j)%nat → fa ≤ fb)
  ∧ (∀ (rfm : list RfmRow) (fs : list Z),
       F_Score_col rfm = Some fs → equal_frequency fs)
  ∧ (∀ rfm : list RfmRow, (2 ≤ length rfm)%nat → is_Some (F_Score_col rfm))
  ∧ (∃ a b : RfmRow,
       Frequency a = Frequency b
       ∧ F_Score_col [a; b] = Some [1; 5]
       ∧ F_Score_col [b; a] = Some [1; 5]).
Proof.
  split; [done |]. split; [| split; [| split; [| split]]].
  - intros x. split; [apply NoDup_rank_first |].
    split; [apply rank_first_range |]. apply rank_first_lt.
  - intros rfm fs i j a b fa fb Hq Ha Hb Hfa Hfb Heq Hij.
    eapply (F_Score_col_ties rfm fs i j a b); eauto.
  - intros rfm fs Hq.
    eapply (equal_frequency_qcut _ F_labels); [by right | | exact Hq].
    apply NoDupA_inject_Z, NoDup_rank_first.
  - apply F_Score_col_is_Some.
  - exists (Examples.aggregate 17850 3 2 10), (Examples.aggregate 13047 8 2 20).
    split; [done |]. split; by vm_compute.
Qed.

Lemma str_digit (z : Z) :
  1 ≤ z ≤ 5 → str z = String (digit z) EmptyString.
Proof.
  intros Hz.
  assert (z = 1 ∨ z = 2 ∨ z = 3 ∨ z = 4 ∨ z = 5) as H by lia.
  repeat (destruct H as [-> | H]; [done |]). by subst.
Qed.

Lemma digit_range (z : Z) :
  1 ≤ z ≤ 5 → digit z ∈ ["1"; "2"; "3"; "4"; "5"]%char.
Proof.
  intros Hz.
  assert (z = 1 ∨ z = 2 ∨ z = 3 ∨ z = 4 ∨ z = 5) as H by lia.
  clear Hz.
  repeat (destruct H as [-> | H]; [by apply (bool_decide_unpack _) |]).
  subst. by apply (bool_decide_unpack _).
Qed.

Lemma merge_left_customer (left : list Customer)
    (right : list (Z * option string)) (row : Report) :
  row ∈ merge_left left right → customer row ∈ left.
Proof.
  unfold merge_left. intros (c & Hrow & Hc)%list_elem_of_bind.
  destruct (filter _ right) as [| p matches].
  - apply list_elem_of_singleton in Hrow as ->. by cbn.
  - apply list_elem_of_fmap in Hrow as (p' & -> & _). by cbn.
Qed.

Lemma report_rows (has_country : bool) (df : list Row) (out : list Report)
    (row : Report) :
  rfm_report has_country df = Some out → row ∈ out →
  ∃ rfm scored,
    rfm_table df = Some rfm ∧ score rfm = Some scored ∧ customer row ∈ scored.
Proof.
  unfold rfm_report.
  intros (rfm & Hrfm & (scored & Hs & [= <-])%bind_Some)%bind_Some Hrow.
  exists rfm, scored. split; [done |]. split; [done |].
  unfold add_country in Hrow. destruct has_country.
  - by eapply merge_left_customer.
  - apply list_elem_of_fmap in Hrow as (c & -> & Hc). done.
Qed.

(** C10.  In every row of the output RFM_Score is the three-character
    text made of the decimal digits of R_Score, F_Score and M_Score in
    this order, each of them one of 1..5. *)
Theorem rfm_score_three_digits (has_country : bool) (df : list Row)
    (out : list Report) (row : Report) :
  rfm_report has_country df = Some out → row ∈ out →
  RFM_Score (customer row)
  = String (digit (R_Score (customer row)))
      (String (digit (F_Score (customer row)))
         (String (digit (M_Score (customer row))) EmptyString))
  ∧ String.length (RFM_Score (customer row)) = 3%nat
  ∧ scores_in_range (customer row)
  ∧ ∀ ch, ch ∈ String.list_ascii_of_string (RFM_Score (customer row)) →
          ch ∈ ["1"; "2"; "3"; "4"; "5"]%char.
Proof.
  intros Hout Hrow.
  destruct (report_rows _ _ _ _ Hout Hrow) as (rfm & scored & _ & Hs & Hc).
  pose proof (scores_range rfm scored Hs) as Hrange.
  rewrite Forall_forall in Hrange. specialize (Hrange _ Hc).
  destruct Hrange as (Hr & Hf & Hm).
  assert (RFM_Score (customer row)
          = String (digit (R_Score (customer row)))
              (String (digit (F_Score (customer row)))
                 (String (digit (M_Score (customer row))) EmptyString))) as Heq.
  { rewrite (score_row_of rfm scored _ Hs Hc) at 1. cbn.
    by rewrite (str_digit _ Hr), (str_digit _ Hf), (str_digit _ Hm). }
  split; [done |]. rewrite Heq. split; [done |]. split; [done |].
  intros ch Hch. cbn in Hch. rewrite !elem_of_cons, elem_of_nil in Hch.
  destruct Hch as [-> | [-> | [-> | []]]]; by apply digit_range.
Qed.

(** C6.  The action table has exactly the seven documented entries, and
    every row of the output carries the action listed for its segment. *)
Theorem suggested_action_table :
  suggested_action "Champions" = Some "Offer VIP loyalty reward"
  ∧ suggested_action "Loyal Customers" = Some "Upsell premium products"
  ∧ suggested_action "Potential Loyalist" = Some "Send exclusive preview"
  ∧ suggested_action "Recent Customers" = Some "Welcome email & offer"
  ∧ suggested_action "At Risk" = Some "Send win-back campaign"
  ∧ suggested_action "Lost" = Some "Big discount or let go"
  ∧ suggested_action "Others" = Some "General promotions"
  ∧ length action_table = 7%nat
  ∧ ∀ (has_country : bool) (df : list Row) (out : list Report) (row : Report),
      rfm_report has_country df = Some out → row ∈ out →
      Segment (customer row) ∈ segments
      ∧ ∃ action,
          Suggested_Action (customer row) = Some action
          ∧ (Segment (customer row), action) ∈ action_table.
Proof.
  do 8 (split; [by vm_compute |]).
  intros has_country df out row Hout Hrow.
  destruct (report_rows _ _ _ _ Hout Hrow) as (rfm & scored & _ & Hs & Hc).
  rewrite (score_row_of rfm scored _ Hs Hc). cbn.
  split; [apply segment_customer_cases |].
  apply suggested_action_segment, segment_customer_cases.
Qed.

End PipelineFacts.

(** ** One row per customer, and the country join *)

Section ReportFacts.
Import Frame Rfm Qcut Segment Pipeline Binning Tested.

(** The aggregate table has one row for each customer of the cleaned
    table. *)
Lemma customers_once_in_rfm_table (df : list Row) (rfm : list RfmRow) :
  rfm_table df = Some rfm →
  NoDup (rfm_CustomerID <$> rfm)
  ∧ ∀ id, id ∈ CustomerID <$> df ↔ id ∈ rfm_CustomerID <$> rfm.
Proof.
  intros ->%rfm_table_ids. split; [apply NoDup_group_keys |].
  intros id. rewrite elem_of_group_keys, list_elem_of_fmap.
  split; [intros (r & -> & Hr) | intros (r & Hr & <-)]; eauto.
Qed.

Lemma filter_eq_NoDup {A B} `{EqDecision B} (f : A → B) (l : list A) (a : A) :
  NoDup (f <$> l) → a ∈ l →
  length (filter (λ x, f x = f a) l) = 1%nat.
Proof.
  induction l as [| x l IH]; intros Hnd Ha; [by apply elem_of_nil in Ha |].
  cbn in Hnd. apply NoDup_cons in Hnd as [Hx Hnd].
  rewrite filter_cons. apply elem_of_cons in Ha as [-> | Ha].
  - rewrite decide_True by done. cbn. f_equal.
    rewrite filter_none; [done |].
    apply Forall_forall. intros y Hy Heq. apply Hx. rewrite <- Heq.
    by apply list_elem_of_fmap_2.
  - rewrite decide_False; [by apply IH |].
    intros Heq. apply Hx. rewrite Heq. by apply list_elem_of_fmap_2.
Qed.

(** Without a Country column the output has one row per customer. *)
Lemma customers_once_without_country (df : list Row) (out : list Report) (id : Z) :
  rfm_report false df = Some out → id ∈ CustomerID <$> df → appears_once id out.
Proof.
  unfold rfm_report.
  intros (rfm & Hrfm & (scored & Hs & [= <-])%bind_Some)%bind_Some Hid.
  destruct (customers_once_in_rfm_table df rfm Hrfm) as [Hnd Hiff].
  destruct (score_Some rfm scored Hs) as (rs & fs & ms & _ & _ & _ & _ & Hm & _).
  apply Hiff in Hid. rewrite <- Hm in Hid, Hnd. clear Hm Hiff Hs Hrfm.
  apply list_elem_of_fmap in Hid as (a & Hida & Ha).
  apply list_elem_of_fmap in Ha as (c & Hac & Hc). subst id a.
  unfold appears_once, add_country.
  rewrite <- list_fmap_compose in Hnd.
  pose proof (filter_eq_NoDup
    (λ row : Report, rfm_CustomerID (metrics (customer row)))
    ((λ c, {| customer := c; report_Country := None |}) <$> scored)
    {| customer := c; report_Country := None |}) as H.
  cbn in H. apply H.
  - rewrite <- (list_fmap_compose
                  (λ c, {| customer := c; report_Country := None |})
                  (λ row : Report, rfm_CustomerID (metrics (customer row)))).
    exact Hnd.
  - by apply (list_elem_of_fmap_2
                (λ c, {| customer := c; report_Country := None |})).
Qed.

Lemma elem_of_drop_duplicates {A} `{EqDecision A} (l : list A) (x : A) :
  x ∈ drop_duplicates l ↔ x ∈ l.
Proof.
  induction l as [| a l IH]; [done |]. cbn.
  rewrite !elem_of_cons, list_elem_of_filter, IH.
  destruct (decide (x = a)); tauto.
Qed.

Lemma NoDup_drop_duplicates {A} `{EqDecision A} (l : list A) :
  NoDup (drop_duplicates l).
Proof.
  induction l as [| a l IH]; cbn; [constructor |].
  apply NoDup_cons. split; [| by apply NoDup_filter].
  rewrite list_elem_of_filter. tauto.
Qed.

Lemma filter_singleton {A} (P : A → Prop) `{∀ a, Decision (P a)}
    (l : list A) (a : A) :
  a ∈ l → P a → (∀ x, x ∈ l → P x → x = a) → NoDup l → filter P l = [a].
Proof.
  induction l as [| y l IH]; intros Ha HP Huniq Hnd; [by apply elem_of_nil in Ha |].
  apply NoDup_cons in Hnd as [Hy Hnd]. rewrite filter_cons.
  apply elem_of_cons in Ha as [-> | Ha].
  - rewrite decide_True by done. f_equal. apply filter_none, Forall_forall.
    intros x Hx HPx. apply Hy.
    by rewrite <- (Huniq x ltac:(by right) HPx).
  - rewrite decide_False.
    + apply IH; [done | done | | done]. intros x Hx. apply Huniq. by right.
    + intros HPy. apply Hy. by rewrite (Huniq y ltac:(left) HPy).
Qed.

Lemma merge_left_one (left : list Customer) (right : list (Z * option string)) :
  (∀ c, c ∈ left →
     ∃ p, filter (λ p, p.1 = rfm_CustomerID (metrics c)) right = [p]) →
  customer <$> merge_left left right = left.
Proof.
  unfold merge_left. induction left as [| c left IH]; intros Hone; [done |].
  cbn. destruct (Hone c ltac:(left)) as [p ->]. cbn. f_equal.
  apply IH. intros c' Hc'. apply Hone. by right.
Qed.

(** With a Country column the output still has one row per customer as
    long as no customer has invoices from two countries. *)
Lemma customers_once_single_country (df : list Row) (out : list Report) (id : Z) :
  (∀ r r', r ∈ df → r' ∈ df → CustomerID r = CustomerID r' → Country r = Country r') →
  rfm_report true df = Some out → id ∈ CustomerID <$> df → appears_once id out.
Proof.
  unfold rfm_report.
  intros Hsingle (rfm & Hrfm & (scored & Hs & [= <-])%bind_Some)%bind_Some Hid.
  destruct (customers_once_in_rfm_table df rfm Hrfm) as [Hnd Hiff].
  destruct (score_Some rfm scored Hs) as (rs & fs & ms & _ & _ & _ & _ & Hm & _).
  apply Hiff in Hid. rewrite <- Hm in Hid, Hnd.
  assert (customer <$> add_country true df scored = scored) as Hout.
  { apply merge_left_one. intros c Hc.
    assert (rfm_CustomerID (metrics c) ∈ CustomerID <$> df) as Hc'.
    { apply Hiff. rewrite <- Hm. apply list_elem_of_fmap_2.
      by apply list_elem_of_fmap_2. }
    apply list_elem_of_fmap in Hc' as (r & Hr & Hrdf).
    exists (CustomerID r, Country r).
    apply filter_singleton.
    - apply elem_of_drop_duplicates.
      by apply (list_elem_of_fmap_2 (λ r, (CustomerID r, Country r))).
    - done.
    - intros [k co] [r' [[= -> ->] Hr']]%elem_of_drop_duplicates%list_elem_of_fmap Hk.
      cbn in Hk. f_equal; [congruence |].
      apply Hsingle; [done | done | congruence].
    - apply NoDup_drop_duplicates. }
  clear Hm Hiff Hs Hrfm.
  apply list_elem_of_fmap in Hid as (a & Hida & Ha). rewrite <- Hout in Ha, Hnd.
  apply list_elem_of_fmap in Ha as (c & Hac & Hc).
  apply list_elem_of_fmap in Hc as (row & Hrow & Hin). subst id a c.
  unfold appears_once.
  apply (filter_eq_NoDup (λ row : Report, rfm_CustomerID (metrics (customer row))));
    [| done].
  rewrite <- !list_fmap_compose in Hnd. exact Hnd.
Qed.

(** C3 fails after the join.  Customer 1 of [two_countries] has invoices
    from two countries; [drop_duplicates] keeps both (CustomerID,
    Country) pairs and the left join writes the customer's row twice. *)
Theorem country_join_repeats_customer :
  ∃ out,
    rfm_report true Examples.two_countries = Some out
    ∧ 1 ∈ CustomerID <$> Examples.two_countries
    ∧ (λ row, (rfm_CustomerID (metrics (customer row)), report_Country row)) <$> out
      = [ (1, Some "United Kingdom"); (1, Some "France");
          (2, Some "United Kingdom") ]
    ∧ ¬ appears_once 1 out.
Proof.
  eexists. split; [by vm_compute |]. split; [| split].
  - by apply (bool_decide_unpack _).
  - by vm_compute.
  - by vm_compute.
Qed.

End ReportFacts.

(** ** The properties on the sample tables *)

Section Samples.
Import Frame Rfm Qcut Segment Pipeline Binning Tested Examples.




Lemma r_score_antitone_witness :
  R_Score_col three_alike = Some [5; 3; 1] ∧ 3 ≤ 5 ∧ 1 ≤ 3.
Proof.
  assert (R_Score_col three_alike = Some [5; 3; 1]) as E by (by vm_compute).
  split; [exact E |].
  exact (proj2 (r_score_antitone three_alike [5; 3; 1] E)
           0%nat 1%nat 2%nat
           (aggregate 1 1 1 10) (aggregate 2 30 1 10) (aggregate 3 90 1 10)
           5 3 1 eq_refl eq_refl eq_refl eq_refl eq_refl eq_refl
           eq_refl eq_refl).
Defined.

Lemma f_score_ties_by_row_order_witness :
  F_Score_col pair_ab = Some [1; 5] ∧ 1 ≤ 5.
Proof.
  assert (F_Score_col pair_ab = Some [1; 5]) as E by (by vm_compute).
  split; [exact E |].
  refine (proj1 (proj2 (proj2 f_score_ties_by_row_order))
            pair_ab [1; 5] 0%nat 1%nat
            (aggregate 17850 3 2 10) (aggregate 13047 8 2 20) 1 5
            E eq_refl eq_refl eq_refl eq_refl eq_refl _).
  lia.
Defined.

Lemma rfm_score_three_digits_witness :
  ∃ out row,
    rfm_report true two_countries = Some out
    ∧ row ∈ out
    ∧ RFM_Score (customer row)
      = String (digit (R_Score (customer row)))
          (String (digit (F_Score (customer row)))
             (String (digit (M_Score (customer row))) EmptyString))
    ∧ String.length (RFM_Score (customer row)) = 3%nat
    ∧ scores_in_range (customer row)
    ∧ ∀ ch, ch ∈ String.list_ascii_of_string (RFM_Score (customer row)) →
            ch ∈ ["1"; "2"; "3"; "4"; "5"]%char.
Proof.
  destruct (rfm_report true two_countries) as [out |] eqn:E;
    [| by vm_compute in E].
  destruct out as [| row out]; [by vm_compute in E |].
  exists (row :: out), row.
  assert (row ∈ row :: out) as Hin by left.
  split; [done |]. split; [done |].
  exact (rfm_score_three_digits true two_countries (row :: out) row E Hin).
Defined.

Lemma suggested_action_table_witness :
  ∃ out row,
    rfm_report true two_countries = Some out
    ∧ row ∈ out
    ∧ Pipeline.Segment (customer row) ∈ segments
    ∧ ∃ action,
        Suggested_Action (customer row) = Some action
        ∧ (Pipeline.Segment (customer row), action) ∈ action_table.
Proof.
  destruct (rfm_report true two_countries) as [out |] eqn:E;
    [| by vm_compute in E].
  destruct out as [| row out]; [by vm_compute in E |].
  exists (row :: out), row.
  assert (row ∈ row :: out) as Hin by left.
  split; [done |]. split; [done |].
  exact (proj2 (proj2 (proj2 (proj2 (proj2 (proj2 (proj2 (proj2
           suggested_action_table)))))))
           true two_countries (row :: out) row E Hin).
Defined.

(** On the first row of the report for [two_countries]. *)
Example two_countries_first_row :
  ∃ out row rest,
    rfm_report true two_countries = Some out ∧ out = row :: rest
    ∧ RFM_Score (customer row) = "155"
    ∧ Pipeline.Segment (customer row) = "At Risk"
    ∧ Suggested_Action (customer row) = Some "Send win-back campaign".
Proof.
  eexists _, _, _. split; [by vm_compute |]. split; [done |].
  repeat split; by vm_compute.
Qed.

(** The scenario of three customers that differ only in their last
    invoice date: R_Score is 5, 3, 1, but the Monetary column has a
    single value, its quantile edges coincide and scoring stops there. *)
Remark three_alike_scoring :
  R_Score_col three_alike = Some [5; 3; 1]
  ∧ F_Score_col three_alike = Some [1; 3; 5]
  ∧ M_Score_col three_alike = None
  ∧ score three_alike = None.
Proof. repeat split; by vm_compute. Qed.

End Samples.

(** * Further properties of the script *)

(** ** Preprocessing and aggregation *)

Section MoreRfmFacts.
Import Frame Rfm.



(** What a row of the aggregate table holds. *)
Lemma rfm_table_row (df : list Row) (rfm : list RfmRow) (c : RfmRow) :
  rfm_table df = Some rfm → c ∈ rfm →
  rfm_CustomerID c ∈ group_keys df
  ∧ ∃ top last,
      series_max (InvoiceDate <$> df) = Some top
      ∧ series_max (InvoiceDate <$> group df (rfm_CustomerID c)) = Some last
      ∧ last ≤ top
      ∧ Recency c = days (top + day - last)
      ∧ Frequency c = nunique (InvoiceNo <$> group df (rfm_CustomerID c))
      ∧ Monetary c = series_sum (TotalPrice <$> group df (rfm_CustomerID c)).
Proof.
  intros Hrfm%rfm_table_rows [i Hi]%list_elem_of_lookup.
  destruct (Forall2_lookup_r _ _ _ _ _ Hrfm Hi) as (k & Hk & Hagg).
  apply list_elem_of_lookup_2 in Hk.
  destruct (agg_group_key df k Hk) as (top & last & Htop & Hlast & Hle & Heq).
  rewrite Heq in Hagg. injection Hagg as <-. cbn.
  split; [done |]. by exists top, last.
Qed.

Lemma rfm_table_key (df : list Row) (rfm : list RfmRow) (k : Z) :
  rfm_table df = Some rfm → k ∈ group_keys df →
  ∃ c, c ∈ rfm ∧ rfm_CustomerID c = k.
Proof.
  intros Hrfm Hk. rewrite <- (rfm_table_ids df rfm Hrfm) in Hk.
  apply list_elem_of_fmap in Hk as (c & -> & Hc). by exists c.
Qed.

Lemma sorted_NoDup_lt (l : list Z) :
  Sorted Z.le l → NoDup l → StronglySorted Z.lt l.
Proof.
  intros Hs%Sorted_StronglySorted Hnd; [| apply _].
  induction Hs as [| a l Hs IH Hall]; [constructor |].
  apply NoDup_cons in Hnd as [Ha Hnd]. constructor; [by apply IH |].
  apply Forall_forall. intros y Hy.
  rewrite Forall_forall in Hall. specialize (Hall y Hy).
  assert (a ≠ y) by (by intros ->). lia.
Qed.

(** The aggregate table (lines 57-62) always exists and lists the
    customers by strictly ascending identifier. *)
Theorem rfm_table_sorted (df : list Row) :
  ∃ rfm,
    rfm_table df = Some rfm
    ∧ StronglySorted Z.lt (rfm_CustomerID <$> rfm)
    ∧ length rfm = length (remove_dups (CustomerID <$> df)).
Proof.
  destruct (rfm_table_total df) as [rfm Hrfm]. exists rfm.
  split; [done |]. pose proof (rfm_table_ids df rfm Hrfm) as Hids. split.
  - rewrite Hids. apply sorted_NoDup_lt; [| apply NoDup_group_keys].
    apply Sorted_merge_sort; apply _.
  - rewrite <- (length_fmap rfm_CustomerID), Hids. unfold group_keys.
    by rewrite merge_sort_Permutation.
Qed.

Lemma days_one_day (delta : Z) : day ≤ delta → 1 ≤ days delta.
Proof.
  intros H. unfold days. pose proof day_pos.
  apply Z.div_le_lower_bound; lia.
Qed.

Lemma length_remove_dups_le {A} `{EqDecision A} (l : list A) :
  (length (remove_dups l) ≤ length l)%nat.
Proof.
  induction l as [| a l IH]; [done |]. cbn. case_decide; cbn; lia.
Qed.

Lemma rfm_row_bounds (df : list Row) (rfm : list RfmRow) (c : RfmRow) :
  rfm_table df = Some rfm → c ∈ rfm →
  1 ≤ Recency c
  ∧ 1 ≤ Frequency c ≤ Z.of_nat (length (group df (rfm_CustomerID c))).
Proof.
  intros Hrfm Hc.
  destruct (rfm_table_row df rfm c Hrfm Hc)
    as (Hk & top & last & _ & Hlast & Hle & -> & -> & _).
  split; [apply days_one_day; lia |].
  unfold nunique.
  set (g := group df (rfm_CustomerID c)) in *.
  assert (length (remove_dups (InvoiceNo <$> g)) ≤ length g)%nat as Hub.
  { rewrite <- (length_fmap InvoiceNo g). apply length_remove_dups_le. }
  assert (remove_dups (InvoiceNo <$> g) ≠ []) as Hne.
  { destruct g as [| r g']; [done |].
    intros Hnil.
    assert (InvoiceNo r ∈ remove_dups (InvoiceNo <$> r :: g')) as Hin
      by (apply elem_of_remove_dups; left).
    rewrite Hnil in Hin. by apply elem_of_nil in Hin. }
  destruct (remove_dups (InvoiceNo <$> g)); [done |]. cbn in *. lia.
Qed.

(** Recency (line 58) is at least one day for everybody, and exactly one
    day for the customer of an invoice line bearing the latest date of
    the table. *)
Theorem recency_at_least_one (df : list Row) :
  ∃ rfm,
    rfm_table df = Some rfm
    ∧ Forall (λ c, 1 ≤ Recency c) rfm
    ∧ ∀ r, r ∈ df → (∀ r', r' ∈ df → InvoiceDate r' ≤ InvoiceDate r) →
           ∃ c, c ∈ rfm ∧ rfm_CustomerID c = CustomerID r ∧ Recency c = 1.
Proof.
  destruct (rfm_table_total df) as [rfm Hrfm]. exists rfm.
  split; [done |]. split.
  - apply Forall_forall. intros c Hc.
    by destruct (rfm_row_bounds df rfm c Hrfm Hc) as [? _].
  - intros r Hr Hlatest.
    assert (CustomerID r ∈ group_keys df) as Hk
      by (apply elem_of_group_keys; eauto).
    destruct (rfm_table_key df rfm _ Hrfm Hk) as (c & Hc & Hid).
    exists c. split; [done |]. split; [done |].
    destruct (rfm_table_row df rfm c Hrfm Hc)
      as (_ & top & last & Htop & Hlast & Hle & -> & _).
    apply series_max_Some in Htop as [Htop_in Htop_ub].
    apply series_max_Some in Hlast as [Hlast_in Hlast_ub].
    assert (InvoiceDate r ≤ last) as H1.
    { apply Hlast_ub. apply list_elem_of_fmap_2, list_elem_of_filter.
      by rewrite Hid. }
    assert (top ≤ InvoiceDate r) as H2.
    { apply list_elem_of_fmap in Htop_in as (r' & -> & Hr'). by apply Hlatest. }
    replace (top + day - last) with day by lia.
    unfold days. apply Z.div_same. pose proof day_pos. lia.
Qed.

(** Frequency (line 59) counts at least one invoice and never more than
    the customer has lines in the table. *)
Theorem frequency_bounds (df : list Row) :
  ∃ rfm,
    rfm_table df = Some rfm
    ∧ Forall (λ c, 1 ≤ Frequency c
                   ≤ Z.of_nat (length (group df (rfm_CustomerID c)))) rfm.
Proof.
  destruct (rfm_table_total df) as [rfm Hrfm]. exists rfm.
  split; [done |]. apply Forall_forall. intros c Hc.
  by destruct (rfm_row_bounds df rfm c Hrfm Hc) as [_ ?].
Qed.

End MoreRfmFacts.

(** ** Scoring: when it fails, when it succeeds, what the scores follow *)

Section MoreScoringFacts.
Import Frame Rfm Qcut Segment Pipeline Binning Tested.
Local Open Scope Q_scope.

Lemma unique_length_le (l : list Q) : (length (unique l) ≤ length l)%nat.
Proof.
  induction l as [| b l IH]; cbn; [done |].
  pose proof (length_filter (λ y, ¬ y == b) (unique l)). lia.
Qed.

Lemma unique_head_repeated (a b : Q) (l : list Q) :
  a == b → (length (unique (a :: b :: l)) < length (a :: b :: l))%nat.
Proof.
  intros Hab. cbn [unique].
  rewrite filter_cons_False by (intros H; apply H; by symmetry).
  cbn [length].
  pose proof (length_filter (λ y, ¬ y == a) (filter (λ y, ¬ y == b) (unique l))).
  pose proof (length_filter (λ y, ¬ y == b) (unique l)).
  pose proof (unique_length_le l). lia.
Qed.

Lemma quantile_constant (s : list Q) (k : nat) (e v : Q) :
  (∀ a b, a ∈ s → b ∈ s → a == b) → quantile s 5 k = Some e → v ∈ s → e == v.
Proof.
  intros Hconst (a & b & Ha & Hb & ->)%quantile_5 Hv.
  apply list_elem_of_lookup_2 in Ha, Hb.
  pose proof (Hconst a b Ha Hb). pose proof (Hconst a v Ha Hv). nra.
Qed.

(** A column with a single value (or no value) cannot be cut. *)
Lemma qcut_constant (x : list Q) (labels : list Z) :
  (∀ a b, a ∈ x → b ∈ x → a == b) → qcut x 5 labels = None.
Proof.
  intros Hconst. unfold qcut.
  destruct (quantile_bins x 5) as [bins |] eqn:Hbins; [| done].
  cbn [mbind option_bind].
  destruct (quantile_bins_5 x bins Hbins)
    as (e0 & e1 & e2 & e3 & e4 & e5 & -> & He).
  set (s := merge_sort Qle x) in *.
  assert (∀ a b, a ∈ s → b ∈ s → a == b) as Hs.
  { intros a b. unfold s. rewrite !merge_sort_Permutation. apply Hconst. }
  pose proof (He 0%nat e0 eq_refl) as H0. pose proof (He 1%nat e1 eq_refl) as H1.
  destruct (quantile_5 s 0 e0 H0) as (a & _ & Ha%list_elem_of_lookup_2 & _).
  pose proof (quantile_constant s 0 e0 a Hs H0 Ha).
  pose proof (quantile_constant s 1 e1 a Hs H1 Ha).
  assert (e0 == e1) as H01 by lra.
  pose proof (unique_head_repeated e0 e1 [e2; e3; e4; e5] H01) as Hu.
  unfold bins_to_cuts. rewrite decide_True; [done |].
  split; [exact Hu | cbn; lia].
Qed.

(** Scoring (lines 65-67) raises whenever all customers share one Recency
    or all share one Monetary value; in particular on a table with no
    customer or a single one. *)
Theorem score_rejects_constant_column (rfm : list RfmRow) :
  (∀ c c', c ∈ rfm → c' ∈ rfm → Recency c = Recency c')
  ∨ (∀ c c', c ∈ rfm → c' ∈ rfm → Monetary c = Monetary c') →
  score rfm = None.
Proof.
  intros [HR | HM]; unfold score.
  - unfold R_Score_col. rewrite qcut_constant; [done |].
    intros a b (c & -> & Hc)%list_elem_of_fmap (c' & -> & Hc')%list_elem_of_fmap.
    by rewrite (HR c c' Hc Hc').
  - destruct (R_Score_col rfm) as [rs |]; [| done].
    destruct (F_Score_col rfm) as [fs |]; [| done].
    unfold M_Score_col. rewrite qcut_constant; [done |].
    intros a b (c & -> & Hc)%list_elem_of_fmap (c' & -> & Hc')%list_elem_of_fmap.
    by rewrite (HM c c' Hc Hc').
Qed.

(** The whole report needs at least two customers: with fewer (an empty
    cleaned table included) the script raises, at the latest at the cut
    of line 65. *)
Theorem report_needs_two_customers (has_country : bool) (df : list Row) :
  (length (remove_dups (CustomerID <$> df)) < 2)%nat →
  rfm_report has_country df = None.
Proof.
  intros Hlen. unfold rfm_report.
  destruct (rfm_table df) as [rfm |] eqn:Hrfm; [| done].
  cbn [mbind option_bind].
  rewrite score_rejects_constant_column; [done |]. left.
  assert (length rfm < 2)%nat as Hn.
  { rewrite <- (length_fmap rfm_CustomerID), (rfm_table_ids df rfm Hrfm).
    unfold group_keys. by rewrite merge_sort_Permutation. }
  destruct rfm as [| a [| b rfm']]; [| | cbn in Hn; lia].
  - intros c c' Hc. by apply elem_of_nil in Hc.
  - intros c c' ->%list_elem_of_singleton ->%list_elem_of_singleton. done.
Qed.









Local Close Scope Q_scope.



(** A customer with strictly fewer invoices never has the larger F_Score
    (line 66), whatever the row order. *)
Theorem f_score_monotone (rfm : list RfmRow) (fs : list Z)
    (i j : nat) (a b : RfmRow) (fa fb : Z) :
  F_Score_col rfm = Some fs →
  rfm !! i = Some a → rfm !! j = Some b →
  fs !! i = Some fa → fs !! j = Some fb →
  Frequency a < Frequency b → fa ≤ fb.
Proof.
  intros Hq Ha Hb Hfa Hfb Hlt.
  eapply (F_Score_col_ties rfm fs i j a b); eauto.
Qed.



(** [segment_customer] (lines 72-87) looks at the Monetary score only
    when both other scores are at least 3: otherwise the segment is the
    same for every M_Score.  With both at least 4, a low M_Score (1 or 2)
    sends the customer to "Others". *)
Theorem segment_uses_monetary_last (r f m m' : Z) :
  (r < 3 ∨ f < 3 → segment_customer r f m = segment_customer r f m')
  ∧ (4 ≤ r → 4 ≤ f → m ≤ 2 → segment_customer r f m = "Others").
Proof.
  unfold segment_customer. split.
  - intros Hrf.
    destruct (Z.geb_spec r 4), (Z.geb_spec f 4), (Z.geb_spec r 3),
      (Z.geb_spec f 3); cbn; try done; lia.
  - intros Hr Hf Hm.
    destruct (Z.geb_spec r 4), (Z.geb_spec f 4), (Z.geb_spec m 4),
      (Z.geb_spec r 3), (Z.geb_spec f 3), (Z.geb_spec m 3),
      (Z.leb_spec r 2), (Z.leb_spec f 2); cbn; try done; lia.
Qed.

End MoreScoringFacts.

(** ** The country join, row by row *)

Section MoreReportFacts.
Import Frame Rfm Qcut Segment Pipeline Binning Tested Reporting.

Lemma merge_left_cons (c : Customer) (left : list Customer)
    (right : list (Z * option string)) :
  merge_left (c :: left) right
  = (match filter (λ p, p.1 = rfm_CustomerID (metrics c)) right with
     | [] => [ {| customer := c; report_Country := None |} ]
     | matches => (λ p, {| customer := c; report_Country := p.2 |}) <$> matches
     end ++ merge_left left right)%list.
Proof. done. Qed.

Lemma fmap_repair_key (k : Z) (l : list (Z * option string)) :
  Forall (λ p, p.1 = k) l → (λ p, (k, p.2)) <$> l = l.
Proof.
  induction 1 as [| [k' co] l Hk _ IH]; [done |].
  cbn in *. by rewrite IH, Hk.
Qed.

Lemma merge_left_pairs (left : list Customer) (right : list (Z * option string)) :
  (∀ c, c ∈ left → filter (λ p, p.1 = rfm_CustomerID (metrics c)) right ≠ []) →
  customer_country <$> merge_left left right
  = ((λ c, rfm_CustomerID (metrics c)) <$> left)
      ≫= (λ k, filter (λ p, p.1 = k) right).
Proof.
  induction left as [| c left IH]; intros Hne; [done |].
  rewrite merge_left_cons, fmap_app, fmap_cons, bind_cons.
  rewrite IH by (intros c' Hc'; apply Hne; by right). f_equal.
  specialize (Hne c ltac:(left)).
  set (k := rfm_CustomerID (metrics c)) in *.
  assert (Forall (λ p, p.1 = k) (filter (λ p, p.1 = k) right)) as Hall.
  { apply Forall_forall. by intros p [? _]%list_elem_of_filter. }
  destruct (filter (λ p, p.1 = k) right) as [| p matches] eqn:Hm; [done |].
  rewrite <- list_fmap_compose. exact (fmap_repair_key k (p :: matches) Hall).
Qed.

Lemma bind_filter_keys (keys : list Z) (l : list (Z * option string)) :
  NoDup keys → NoDup l → (∀ p, p ∈ l → p.1 ∈ keys) →
  keys ≫= (λ k, filter (λ p, p.1 = k) l) ≡ₚ l.
Proof.
  intros Hk Hl Hin. apply NoDup_Permutation; [| done |].
  - apply NoDup_bind; [| | done].
    + intros k1 k2 p _ _ [<- _]%list_elem_of_filter [<- _]%list_elem_of_filter.
      done.
    + intros k _. by apply NoDup_filter.
  - intros p. rewrite list_elem_of_bind. split.
    + by intros (k & [_ ?]%list_elem_of_filter & _).
    + intros Hp. exists p.1. split; [by apply list_elem_of_filter | by apply Hin].
Qed.

Lemma elem_of_country_pairs (df : list Row) (p : Z * option string) :
  p ∈ country_pairs df ↔ ∃ r, r ∈ df ∧ CustomerID r = p.1 ∧ Country r = p.2.
Proof.
  unfold country_pairs. rewrite elem_of_drop_duplicates, list_elem_of_fmap.
  destruct p as [k co]. cbn. split.
  - intros (r & [= -> ->] & Hr). by exists r.
  - intros (r & Hr & <- & <-). by exists r.
Qed.

Lemma rfm_report_Some (has_country : bool) (df : list Row) (out : list Report) :
  rfm_report has_country df = Some out →
  ∃ rfm scored,
    rfm_table df = Some rfm ∧ score rfm = Some scored
    ∧ out = add_country has_country df scored
    ∧ (λ c, rfm_CustomerID (metrics c)) <$> scored = group_keys df.
Proof.
  unfold rfm_report.
  intros (rfm & Hrfm & (scored & Hs & [= <-])%bind_Some)%bind_Some.
  exists rfm, scored. do 3 (split; [done |]).
  destruct (score_Some rfm scored Hs) as (rs & fs & ms & _ & _ & _ & _ & Hm & _).
  rewrite <- (rfm_table_ids df rfm Hrfm), <- Hm.
  by rewrite <- list_fmap_compose.
Qed.

Lemma join_rows_are_pairs_lemma (df : list Row) (out : list Report) :
  rfm_report true df = Some out →
  customer_country <$> out ≡ₚ country_pairs df.
Proof.
  intros (rfm & scored & Hrfm & Hs & -> & Hids)%rfm_report_Some.
  unfold add_country. rewrite merge_left_pairs.
  - rewrite Hids. apply bind_filter_keys.
    + apply NoDup_group_keys.
    + apply NoDup_drop_duplicates.
    + intros p (r & Hr & <- & _)%elem_of_country_pairs.
      apply elem_of_group_keys. eauto.
  - intros c Hc.
    assert (rfm_CustomerID (metrics c) ∈ group_keys df) as Hk.
    { rewrite <- Hids.
      by apply (list_elem_of_fmap_2 (λ c, rfm_CustomerID (metrics c))). }
    apply elem_of_group_keys in Hk as (r & Hr & Hk).
    intros Hnil.
    assert ((CustomerID r, Country r)
            ∈ filter (λ p, p.1 = rfm_CustomerID (metrics c)) (country_pairs df))
      as Hin.
    { apply list_elem_of_filter. split; [done |].
      apply elem_of_country_pairs. by exists r. }
    rewrite Hnil in Hin. by apply elem_of_nil in Hin.
Qed.

(** With a Country column, the rows of the final table (line 104)
    correspond one to one to the distinct (CustomerID, Country) pairs of
    the cleaned table: each pair gives exactly one row. *)
Theorem join_rows_are_pairs (df : list Row) (out : list Report) :
  rfm_report true df = Some out →
  customer_country <$> out ≡ₚ country_pairs df
  ∧ NoDup (customer_country <$> out)
  ∧ length out = length (country_pairs df).
Proof.
  intros Hout.
  pose proof (join_rows_are_pairs_lemma df out Hout) as Hperm.
  split; [done |]. split.
  - rewrite Hperm. apply NoDup_drop_duplicates.
  - rewrite <- (length_fmap customer_country). by rewrite Hperm.
Qed.

Lemma filter_fmap_length {A B} (f : A → B) (P : B → Prop)
    `{∀ b, Decision (P b)} (l : list A) :
  length (filter (λ a, P (f a)) l) = length (filter P (f <$> l)).
Proof.
  induction l as [| a l IH]; [done |].
  rewrite fmap_cons, !filter_cons. case_decide; cbn; by rewrite IH.
Qed.

Lemma country_pairs_of_customer (df : list Row) (id : Z) :
  (filter (λ p, p.1 = id) (country_pairs df)).*2
  ≡ₚ remove_dups (Country <$> group df id).
Proof.
  apply NoDup_Permutation.
  - apply NoDup_fmap_2_strong.
    + intros [k co] [k' co'] [Hk _]%list_elem_of_filter [Hk' _]%list_elem_of_filter.
      cbn in *. congruence.
    + apply NoDup_filter, NoDup_drop_duplicates.
  - apply NoDup_remove_dups.
  - intros co. rewrite elem_of_remove_dups, !list_elem_of_fmap. split.
    + intros ([k co'] & -> & [Hk Hp]%list_elem_of_filter).
      apply elem_of_country_pairs in Hp as (r & Hr & Hid & Hco). cbn in *.
      exists r. split; [done |]. apply list_elem_of_filter. split; [congruence | done].
    + intros (r & -> & [Hid Hr]%list_elem_of_filter).
      exists (id, Country r). split; [done |].
      apply list_elem_of_filter. split; [done |].
      apply elem_of_country_pairs. by exists r.
Qed.

(** After the join a customer has as many rows as there are different
    Country cells (a missing one included) on the customer's invoice
    lines; never none. *)
Theorem country_join_row_count (df : list Row) (out : list Report) (id : Z) :
  rfm_report true df = Some out → id ∈ CustomerID <$> df →
  length (filter (λ row, customer_id row = id) out)
  = length (remove_dups (Country <$> group df id))
  ∧ (1 ≤ length (filter (λ row, customer_id row = id) out))%nat.
Proof.
  intros Hout Hid.
  pose proof (join_rows_are_pairs_lemma df out Hout) as Hperm.
  assert (length (filter (λ row, customer_id row = id) out)
          = length (remove_dups (Country <$> group df id))) as Hlen.
  { etrans; [exact (filter_fmap_length customer_country (λ p, p.1 = id) out) |].
    rewrite Hperm, <- (length_fmap snd).
    by rewrite country_pairs_of_customer. }
  split; [done |]. rewrite Hlen.
  apply list_elem_of_fmap in Hid as (r & -> & Hr).
  assert (Country r ∈ remove_dups (Country <$> group df (CustomerID r))) as Hin.
  { apply elem_of_remove_dups, list_elem_of_fmap_2.
    by apply list_elem_of_filter. }
  destruct (remove_dups (Country <$> group df (CustomerID r)));
    [by apply elem_of_nil in Hin | cbn; lia].
Qed.

Lemma add_country_customer (has_country : bool) (df : list Row)
    (scored : list Customer) (row : Report) :
  row ∈ add_country has_country df scored → customer row ∈ scored.
Proof.
  unfold add_country. destruct has_country.
  - apply merge_left_customer.
  - by intros (c & -> & Hc)%list_elem_of_fmap.
Qed.

Lemma merge_left_block (c : Customer) (right : list (Z * option string)) :
  Forall (λ row, customer row = c)
    match filter (λ p, p.1 = rfm_CustomerID (metrics c)) right with
    | [] => [ {| customer := c; report_Country := None |} ]
    | matches => (λ p, {| customer := c; report_Country := p.2 |}) <$> matches
    end.
Proof.
  destruct (filter _ right) as [| p matches].
  - by repeat constructor.
  - apply Forall_fmap, Forall_forall. by intros.
Qed.

Lemma constant_sorted (k : Z) (l : list Z) :
  Forall (λ x, x = k) l → StronglySorted Z.le l.
Proof.
  induction 1 as [| x l -> Hall IH]; constructor; [done |].
  eapply Forall_impl; [exact Hall |]. intros ? ->. done.
Qed.

Lemma merge_left_sorted (left : list Customer) (right : list (Z * option string)) :
  StronglySorted Z.le ((λ c, rfm_CustomerID (metrics c)) <$> left) →
  StronglySorted Z.le (customer_id <$> merge_left left right).
Proof.
  induction left as [| c left IH]; intros Hs; [constructor |].
  rewrite fmap_cons in Hs. apply StronglySorted_cons in Hs as [Hall Hs].
  rewrite merge_left_cons, fmap_app.
  pose proof (merge_left_block c right) as Hblock.
  set (block := match filter _ right with [] => _ | _ => _ end) in *.
  assert (Forall (λ k, k = rfm_CustomerID (metrics c)) (customer_id <$> block))
    as Hids.
  { apply Forall_fmap. eapply Forall_impl; [exact Hblock |].
    intros row Hrow. cbn. unfold customer_id. by rewrite Hrow. }
  apply StronglySorted_app_2; [| | by apply IH].
  - intros k1 k2 Hk1 (row & -> & Hrow)%list_elem_of_fmap.
    rewrite Forall_forall in Hids. rewrite (Hids k1 Hk1).
    rewrite Forall_forall in Hall. apply Hall.
    apply (list_elem_of_fmap_2 (λ c, rfm_CustomerID (metrics c))).
    by eapply merge_left_customer.
  - by eapply constant_sorted.
Qed.

Lemma strictly_sorted_le (l : list Z) :
  StronglySorted Z.lt l → StronglySorted Z.le l.
Proof.
  induction 1 as [| a l _ IH Hall]; constructor; [done |].
  eapply Forall_impl; [done |]. intros. cbn in *. lia.
Qed.

(** The final table is ordered by ascending CustomerID, with or without
    the Country column, and rows of the same customer carry the same
    metrics, scores, segment and action: they differ in Country only. *)
Theorem report_sorted_by_customer (has_country : bool) (df : list Row)
    (out : list Report) :
  rfm_report has_country df = Some out →
  StronglySorted Z.le (customer_id <$> out)
  ∧ ∀ row row', row ∈ out → row' ∈ out →
      customer_id row = customer_id row' → customer row = customer row'.
Proof.
  intros (rfm & scored & Hrfm & Hs & -> & Hids)%rfm_report_Some.
  assert (StronglySorted Z.lt ((λ c, rfm_CustomerID (metrics c)) <$> scored))
    as Hsorted.
  { rewrite Hids. apply sorted_NoDup_lt; [| apply NoDup_group_keys].
    apply Sorted_merge_sort; apply _. }
  split.
  - unfold add_country. destruct has_country.
    + by apply merge_left_sorted, strictly_sorted_le.
    + rewrite <- list_fmap_compose. by apply strictly_sorted_le.
  - intros row row' Hrow%add_country_customer Hrow'%add_country_customer Heq.
    pose proof (NoDup_group_keys df) as Hnd. rewrite <- Hids in Hnd.
    apply list_elem_of_lookup in Hrow as [i Hi].
    apply list_elem_of_lookup in Hrow' as [j Hj].
    assert (i = j) as ->; [| congruence].
    eapply (NoDup_lookup _ i j (customer_id row)); [exact Hnd | |].
    + by rewrite list_lookup_fmap, Hi.
    + rewrite list_lookup_fmap, Hj. cbn. by rewrite Heq.
Qed.





End MoreReportFacts.

(** ** The segment summary and the positive-revenue view *)

Section MoreSummaryFacts.
Import Frame Rfm Qcut Segment Pipeline Binning Tested Reporting.

#[local] Instance by_count_desc_total : Total by_count_desc.
Proof. intros a b. unfold by_count_desc. lia. Qed.

#[local] Instance by_count_desc_trans : Transitive by_count_desc.
Proof. intros a b c. unfold by_count_desc. lia. Qed.

Lemma foldr_add_perm (l l' : list Z) :
  l ≡ₚ l' → foldr Z.add 0 l = foldr Z.add 0 l'.
Proof. induction 1; cbn; lia. Qed.

Lemma group_sizes_step {A} (f : A → string) (k : string) (ks : list string)
    (l : list A) :
  k ∉ ks →
  (length (filter (λ a, f a = k) l) + length (filter (λ a, f a ∈ ks) l)
   = length (filter (λ a, f a ∈ k :: ks) l))%nat.
Proof.
  intros Hk. induction l as [| a l IH]; [done |].
  rewrite !filter_cons.
  destruct (decide (f a = k)) as [Heq | Hne].
  - rewrite decide_False by (by rewrite Heq).
    rewrite decide_True by (rewrite Heq; left). cbn. lia.
  - destruct (decide (f a ∈ ks)) as [Hin | Hnin].
    + rewrite decide_True by (by right). cbn. lia.
    + rewrite decide_False; [done |].
      by intros [? | ?]%elem_of_cons.
Qed.

Lemma group_sizes_sum {A} (f : A → string) (keys : list string) (l : list A) :
  NoDup keys →
  foldr Z.add 0 ((λ k, Z.of_nat (length (filter (λ a, f a = k) l))) <$> keys)
  = Z.of_nat (length (filter (λ a, f a ∈ keys) l)).
Proof.
  induction 1 as [| k ks Hk _ IH]; cbn [fmap list_fmap foldr].
  - rewrite filter_none; [done |]. apply Forall_forall. intros a _.
    apply not_elem_of_nil.
  - rewrite IH, <- (group_sizes_step f k ks l Hk). lia.
Qed.

Lemma NoDup_summary_keys (rfm : list Report) : NoDup (summary_keys rfm).
Proof.
  unfold summary_keys. rewrite merge_sort_Permutation. apply NoDup_remove_dups.
Qed.

Lemma elem_of_summary_keys (rfm : list Report) (s : string) :
  s ∈ summary_keys rfm ↔ ∃ row, row ∈ rfm ∧ Pipeline.Segment (customer row) = s.
Proof.
  unfold summary_keys.
  rewrite merge_sort_Permutation, elem_of_remove_dups, list_elem_of_fmap.
  split; [intros (r & -> & Hr) | intros (r & Hr & <-)]; eauto.
Qed.

Lemma segment_summary_perm (rfm : list Report) :
  segment_summary rfm ≡ₚ summary_row rfm <$> summary_keys rfm.
Proof. apply merge_sort_Permutation. Qed.

Lemma segment_summary_total (rfm : list Report) :
  foldr Z.add 0 (Count <$> segment_summary rfm) = Z.of_nat (length rfm).
Proof.
  rewrite (foldr_add_perm _ _
             (fmap_Permutation Count _ _ (segment_summary_perm rfm))).
  rewrite <- list_fmap_compose.
  etrans; [exact (group_sizes_sum (λ row, Pipeline.Segment (customer row))
                    (summary_keys rfm) rfm (NoDup_summary_keys rfm)) |].
  f_equal. f_equal. apply filter_all, Forall_forall. intros row Hrow.
  apply elem_of_summary_keys. eauto.
Qed.

Lemma segment_summary_segments (rfm : list Report) :
  summary_Segment <$> segment_summary rfm ≡ₚ summary_keys rfm.
Proof.
  rewrite (segment_summary_perm rfm), <- list_fmap_compose. cbn.
  induction (summary_keys rfm) as [| k ks IH]; [done |].
  cbn. by rewrite IH.
Qed.

(** The summary table (lines 141-146) has one row for each segment that
    occurs, with a Count of at least 1 equal to the number of rows of the
    table in that segment; the Counts add up to the number of rows of the
    table and descend from the first row of the summary to the last. *)
Theorem segment_summary_counts (rfm : list Report) :
  foldr Z.add 0 (Count <$> segment_summary rfm) = Z.of_nat (length rfm)
  ∧ NoDup (summary_Segment <$> segment_summary rfm)
  ∧ (∀ s, s ∈ summary_Segment <$> segment_summary rfm ↔
          ∃ row, row ∈ rfm ∧ Pipeline.Segment (customer row) = s)
  ∧ Forall (λ sr, 1 ≤ Count sr
                  ∧ Count sr
                    = Z.of_nat (length (filter
                        (λ row, Pipeline.Segment (customer row) = summary_Segment sr)
                        rfm)))
      (segment_summary rfm)
  ∧ StronglySorted (λ a b, Count b ≤ Count a) (segment_summary rfm).
Proof.
  pose proof (segment_summary_perm rfm) as Hperm.
  pose proof (segment_summary_segments rfm) as Hkeys.
  split; [| split; [| split; [| split]]].
  - apply segment_summary_total.
  - rewrite Hkeys. apply NoDup_summary_keys.
  - intros s. rewrite Hkeys. apply elem_of_summary_keys.
  - apply Forall_forall. intros sr. rewrite Hperm.
    intros (s & -> & (row & Hrow & Hs)%elem_of_summary_keys)%list_elem_of_fmap.
    cbn. split; [| done].
    assert (row ∈ filter (λ row, Pipeline.Segment (customer row) = s) rfm) as Hin
      by (by apply list_elem_of_filter).
    destruct (filter _ rfm); [by apply elem_of_nil in Hin | cbn; lia].
  - apply (StronglySorted_merge_sort by_count_desc).
Qed.

Lemma foldl_Qplus_ge (x : list Q) :
  Forall (λ v, (1 <= v)%Q) x →
  ∀ a, (a + inject_Z (Z.of_nat (length x)) <= foldl Qplus a x)%Q.
Proof.
  induction 1 as [| v x Hv _ IH]; intros a.
  - cbn [foldl length]. change (inject_Z (Z.of_nat 0)) with 0%Q. lra.
  - cbn [foldl length]. specialize (IH (a + v)%Q).
    rewrite Nat2Z.inj_succ. unfold Z.succ. rewrite inject_Z_plus.
    change (inject_Z 1) with 1%Q. lra.
Qed.

Lemma series_mean_ge_1 (x : list Q) :
  x ≠ [] → Forall (λ v, (1 <= v)%Q) x → (1 <= series_mean x)%Q.
Proof.
  intros Hne Hall. unfold series_mean.
  pose proof (foldl_Qplus_ge x Hall 0%Q) as Hsum.
  assert (0 < inject_Z (Z.of_nat (length x)))%Q as Hpos.
  { change 0%Q with (inject_Z 0). rewrite <- Zlt_Qlt.
    destruct x; [done | cbn; lia]. }
  apply Qle_shift_div_l; [done |]. lra.
Qed.

Lemma report_row_facts (has_country : bool) (df : list Row)
    (out : list Report) (row : Report) :
  rfm_report has_country df = Some out → row ∈ out →
  customer_id row ∈ CustomerID <$> df
  ∧ 1 ≤ Recency (metrics (customer row))
  ∧ 1 ≤ Frequency (metrics (customer row))
  ∧ Monetary (metrics (customer row))
    = series_sum (TotalPrice <$> group df (customer_id row))
  ∧ Pipeline.Segment (customer row) ∈ segments
  ∧ is_Some (Suggested_Action (customer row)).
Proof.
  intros Hout Hrow.
  destruct (rfm_report_Some _ _ _ Hout) as (rfm & scored & Hrfm & Hs & -> & Hids).
  apply add_country_customer in Hrow.
  destruct (score_Some rfm scored Hs) as (rs & fs & ms & _ & _ & _ & _ & Hm & _).
  assert (metrics (customer row) ∈ rfm) as Hc.
  { rewrite <- Hm. by apply list_elem_of_fmap_2. }
  destruct (rfm_table_row df rfm _ Hrfm Hc)
    as (Hk & top & last & _ & _ & _ & _ & _ & Hmon).
  destruct (rfm_row_bounds df rfm _ Hrfm Hc) as (HR & HF & _).
  split.
  { apply elem_of_group_keys in Hk as (r & Hr & Hid).
    unfold customer_id. rewrite <- Hid. by apply list_elem_of_fmap_2. }
  do 3 (split; [done |]).
  rewrite (score_row_of rfm scored _ Hs Hrow). cbn.
  split; [apply segment_customer_cases |].
  destruct (suggested_action_segment _ (segment_customer_cases
              (R_Score (customer row)) (F_Score (customer row))
              (M_Score (customer row)))) as (a & -> & _).
  by eexists.
Qed.

(** On the table the script produces, the Counts of the summary add up to
    the number of distinct (CustomerID, Country) pairs when there is a
    Country column, and to the number of customers when there is none.
    The summary has at most seven rows, each for one of the seven segment
    names, and its mean Recency and mean Frequency are at least 1. *)
Theorem summary_of_report (has_country : bool) (df : list Row)
    (out : list Report) :
  rfm_report has_country df = Some out →
  foldr Z.add 0 (Count <$> segment_summary out)
  = Z.of_nat (if has_country then length (country_pairs df)
              else length (remove_dups (CustomerID <$> df)))
  ∧ (length (segment_summary out) ≤ 7)%nat
  ∧ Forall (λ sr, summary_Segment sr ∈ segments
                  ∧ (1 <= mean_Recency sr)%Q ∧ (1 <= mean_Frequency sr)%Q)
      (segment_summary out).
Proof.
  intros Hout. split; [| split].
  - rewrite segment_summary_total. f_equal.
    destruct has_country.
    + rewrite <- (length_fmap customer_country).
      by rewrite (join_rows_are_pairs_lemma df out Hout).
    + destruct (rfm_report_Some _ _ _ Hout)
        as (rfm & scored & _ & _ & -> & Hids).
      unfold add_country. rewrite length_fmap.
      rewrite <- (length_fmap (λ c, rfm_CustomerID (metrics c))), Hids.
      unfold group_keys. by rewrite merge_sort_Permutation.
  - rewrite <- (length_fmap summary_Segment), (segment_summary_segments out).
    change 7%nat with (length segments).
    apply submseteq_length, NoDup_submseteq; [apply NoDup_summary_keys |].
    intros s (row & Hrow & <-)%elem_of_summary_keys.
    by destruct (report_row_facts _ _ _ _ Hout Hrow) as (_ & _ & _ & _ & ? & _).
  - apply Forall_forall. intros sr. rewrite (segment_summary_perm out).
    intros (s & -> & (row & Hrow & Hs)%elem_of_summary_keys)%list_elem_of_fmap.
    cbn.
    set (g := filter (λ row, Pipeline.Segment (customer row) = s) out).
    assert (row ∈ g) as Hin by (by apply list_elem_of_filter).
    assert (∀ row', row' ∈ g → row' ∈ out) as Hg
      by (by intros row' [_ ?]%list_elem_of_filter).
    split; [| split].
    + rewrite <- Hs.
      by destruct (report_row_facts _ _ _ _ Hout Hrow) as (_ & _ & _ & _ & ? & _).
    + apply series_mean_ge_1.
      * intros Hnil%fmap_nil_inv. rewrite Hnil in Hin. by apply elem_of_nil in Hin.
      * apply Forall_fmap, Forall_forall. intros row' Hrow'. cbn.
        destruct (report_row_facts _ _ _ _ Hout (Hg row' Hrow')) as (_ & HR & _).
        change 1%Q with (inject_Z 1). by rewrite <- Zle_Qle.
    + apply series_mean_ge_1.
      * intros Hnil%fmap_nil_inv. rewrite Hnil in Hin. by apply elem_of_nil in Hin.
      * apply Forall_fmap, Forall_forall. intros row' Hrow'. cbn.
        destruct (report_row_facts _ _ _ _ Hout (Hg row' Hrow')) as (_ & _ & HF & _).
        change 1%Q with (inject_Z 1). by rewrite <- Zle_Qle.
Qed.





(** The preview [rfm.head(20)] shows the rows of the lowest customer
    identifiers: no row left out has a smaller CustomerID than a row
    shown, and all rows are shown when there are at most 20. *)
Theorem head_shows_lowest_customers (has_country : bool) (df : list Row)
    (out : list Report) :
  rfm_report has_country df = Some out →
  length (head 20 out) = (20 `min` length out)%nat
  ∧ (∀ shown hidden, shown ∈ head 20 out → hidden ∈ drop 20 out →
       customer_id shown ≤ customer_id hidden)
  ∧ ((length out ≤ 20)%nat → head 20 out = out).
Proof.
  intros (rfm & scored & Hrfm & Hs & Heq & Hids)%rfm_report_Some.
  assert (StronglySorted Z.le (customer_id <$> out)) as Hsorted.
  { assert (StronglySorted Z.lt ((λ c, rfm_CustomerID (metrics c)) <$> scored))
      as Hlt.
    { rewrite Hids. apply sorted_NoDup_lt; [| apply NoDup_group_keys].
      apply Sorted_merge_sort; apply _. }
    rewrite Heq. unfold add_country. destruct has_country.
    - by apply merge_left_sorted, strictly_sorted_le.
    - rewrite <- list_fmap_compose. by apply strictly_sorted_le. }
  unfold head. split; [apply length_take | split].
  - intros shown hidden Hshown Hhidden.
    rewrite <- (take_drop 20 out), fmap_app in Hsorted.
    apply StronglySorted_app in Hsorted as (Hle & _ & _).
    apply Hle; by apply list_elem_of_fmap_2.
  - intros Hlen. by apply take_ge.
Qed.

Lemma digit_inj (a b : Z) :
  1 ≤ a ≤ 5 → 1 ≤ b ≤ 5 → digit a = digit b → a = b.
Proof.
  intros Ha Hb.
  assert (a = 1 ∨ a = 2 ∨ a = 3 ∨ a = 4 ∨ a = 5) as Ha' by lia.
  assert (b = 1 ∨ b = 2 ∨ b = 3 ∨ b = 4 ∨ b = 5) as Hb' by lia.
  clear Ha Hb.
  destruct Ha' as [-> | [-> | [-> | [-> | ->]]]],
    Hb' as [-> | [-> | [-> | [-> | ->]]]]; vm_compute; congruence.
Qed.

Lemma report_row_score (has_country : bool) (df : list Row)
    (out : list Report) (row : Report) :
  rfm_report has_country df = Some out → row ∈ out →
  scores_in_range (customer row)
  ∧ RFM_Score (customer row)
    = String (digit (R_Score (customer row)))
        (String (digit (F_Score (customer row)))
           (String (digit (M_Score (customer row))) EmptyString))
  ∧ Pipeline.Segment (customer row)
    = segment_customer (R_Score (customer row)) (F_Score (customer row))
        (M_Score (customer row))
  ∧ Suggested_Action (customer row)
    = suggested_action (Pipeline.Segment (customer row)).
Proof.
  intros Hout Hrow.
  destruct (report_rows _ _ _ _ Hout Hrow) as (rfm & scored & _ & Hs & Hc).
  pose proof (scores_range rfm scored Hs) as Hrange.
  rewrite Forall_forall in Hrange. specialize (Hrange _ Hc).
  split; [done |]. destruct Hrange as (Hr & Hf & Hm).
  rewrite (score_row_of rfm scored _ Hs Hc). cbn.
  by rewrite (str_digit _ Hr), (str_digit _ Hf), (str_digit _ Hm).
Qed.

(** RFM_Score (line 68) identifies the three scores: two rows of the
    final table with the same RFM_Score have the same R, F and M scores,
    hence the same segment and the same suggested action. *)
Theorem rfm_score_determines_scores (has_country : bool) (df : list Row)
    (out : list Report) (row row' : Report) :
  rfm_report has_country df = Some out → row ∈ out → row' ∈ out →
  RFM_Score (customer row) = RFM_Score (customer row') →
  R_Score (customer row) = R_Score (customer row')
  ∧ F_Score (customer row) = F_Score (customer row')
  ∧ M_Score (customer row) = M_Score (customer row')
  ∧ Pipeline.Segment (customer row) = Pipeline.Segment (customer row')
  ∧ Suggested_Action (customer row) = Suggested_Action (customer row').
Proof.
  intros Hout Hrow Hrow' Heq.
  destruct (report_row_score _ _ _ _ Hout Hrow)
    as ((Hr & Hf & Hm) & Hscore & Hseg & Hact).
  destruct (report_row_score _ _ _ _ Hout Hrow')
    as ((Hr' & Hf' & Hm') & Hscore' & Hseg' & Hact').
  rewrite Hscore, Hscore' in Heq. injection Heq as HR HF HM.
  apply digit_inj in HR; [| done ..].
  apply digit_inj in HF; [| done ..].
  apply digit_inj in HM; [| done ..].
  assert (Pipeline.Segment (customer row) = Pipeline.Segment (customer row'))
    as Hsame by (rewrite Hseg, Hseg'; congruence).
  do 4 (split; [done |]). by rewrite Hact, Hact', Hsame.
Qed.

End MoreSummaryFacts.

(** ** The further properties on the sample tables *)

Section MoreSamples.
Import Frame Rfm Qcut Segment Pipeline Binning Tested Reporting Examples Cases.

Lemma score_rejects_constant_column_witness :
  (∀ c c', c ∈ same_revenue → c' ∈ same_revenue → Monetary c = Monetary c')
  ∧ score same_revenue = None.
Proof.
  assert (∀ c c', c ∈ same_revenue → c' ∈ same_revenue
            → Monetary c = Monetary c') as H.
  { intros c c' Hc Hc'. unfold same_revenue in *.
    rewrite !elem_of_cons, elem_of_nil in Hc, Hc'.
    destruct Hc as [-> | [-> | [-> | []]]], Hc' as [-> | [-> | [-> | []]]];
      reflexivity. }
  split; [exact H |].
  exact (score_rejects_constant_column same_revenue (or_intror H)).
Defined.

Lemma report_needs_two_customers_witness :
  (length (remove_dups (CustomerID <$> single_customer)) < 2)%nat
  ∧ rfm_report true single_customer = None.
Proof.
  assert (length (remove_dups (CustomerID <$> single_customer)) < 2)%nat as H
    by (vm_compute; lia).
  split; [exact H |]. exact (report_needs_two_customers true single_customer H).
Defined.





Lemma f_score_monotone_witness :
  F_Score_col tied_recency = Some [1; 3; 1; 4; 2; 4; 2; 5; 3; 5] ∧ 1 ≤ 3.
Proof.
  assert (F_Score_col tied_recency = Some [1; 3; 1; 4; 2; 4; 2; 5; 3; 5]) as E
    by (by vm_compute).
  split; [exact E |].
  refine (f_score_monotone tied_recency _ 0%nat 1%nat
            (aggregate 1 1 1 10) (aggregate 2 1 2 20) 1 3
            E eq_refl eq_refl eq_refl eq_refl _).
  cbn. lia.
Defined.


Lemma segment_uses_monetary_last_witness :
  segment_customer 2 5 1 = segment_customer 2 5 5
  ∧ segment_customer 5 5 2 = "Others".
Proof.
  split.
  - apply (proj1 (segment_uses_monetary_last 2 5 1 5)). lia.
  - apply (proj2 (segment_uses_monetary_last 5 5 2 2)); lia.
Defined.

Lemma join_rows_are_pairs_witness :
  ∃ out,
    rfm_report true two_countries = Some out
    ∧ customer_country <$> out ≡ₚ country_pairs two_countries
    ∧ NoDup (customer_country <$> out)
    ∧ length out = length (country_pairs two_countries).
Proof.
  destruct (rfm_report true two_countries) as [out |] eqn:E;
    [| by vm_compute in E].
  exists out. split; [done |]. exact (join_rows_are_pairs two_countries out E).
Defined.

Lemma country_join_row_count_witness :
  ∃ out,
    rfm_report true two_countries = Some out
    ∧ 1 ∈ CustomerID <$> two_countries
    ∧ length (filter (λ row, customer_id row = 1) out)
      = length (remove_dups (Country <$> group two_countries 1))
    ∧ (1 ≤ length (filter (λ row, customer_id row = 1%Z) out))%nat.
Proof.
  destruct (rfm_report true two_countries) as [out |] eqn:E;
    [| by vm_compute in E].
  assert (1 ∈ CustomerID <$> two_countries) as H
    by (apply (bool_decide_unpack _); by vm_compute).
  exists out. split; [done |]. split; [exact H |].
  exact (country_join_row_count two_countries out 1 E H).
Defined.

Lemma report_sorted_by_customer_witness :
  ∃ out,
    rfm_report true two_countries = Some out
    ∧ StronglySorted Z.le (customer_id <$> out)
    ∧ ∀ row row', row ∈ out → row' ∈ out →
        customer_id row = customer_id row' → customer row = customer row'.
Proof.
  destruct (rfm_report true two_countries) as [out |] eqn:E;
    [| by vm_compute in E].
  exists out. split; [done |].
  exact (report_sorted_by_customer true two_countries out E).
Defined.


Lemma summary_of_report_witness :
  ∃ out,
    rfm_report true two_countries = Some out
    ∧ foldr Z.add 0 (Count <$> segment_summary out)
      = Z.of_nat (length (country_pairs two_countries))
    ∧ (length (segment_summary out) ≤ 7)%nat
    ∧ Forall (λ sr, summary_Segment sr ∈ segments
                    ∧ (1 <= mean_Recency sr)%Q ∧ (1 <= mean_Frequency sr)%Q)
        (segment_summary out).
Proof.
  destruct (rfm_report true two_countries) as [out |] eqn:E;
    [| by vm_compute in E].
  exists out. split; [done |]. exact (summary_of_report true two_countries out E).
Defined.


Lemma customers_once_without_country_witness :
  ∃ out,
    rfm_report false two_countries = Some out
    ∧ 1 ∈ CustomerID <$> two_countries
    ∧ appears_once 1 out.
Proof.
  destruct (rfm_report false two_countries) as [out |] eqn:E;
    [| by vm_compute in E].
  assert (1 ∈ CustomerID <$> two_countries) as H
    by (apply (bool_decide_unpack _); by vm_compute).
  exists out. split; [done |]. split; [exact H |].
  exact (customers_once_without_country two_countries out 1 E H).
Defined.

Lemma head_shows_lowest_customers_witness :
  ∃ out,
    rfm_report true two_countries = Some out
    ∧ length (head 20 out) = (20 `min` length out)%nat
    ∧ (∀ shown hidden, shown ∈ head 20 out → hidden ∈ drop 20 out →
         customer_id shown ≤ customer_id hidden)
    ∧ ((length out ≤ 20)%nat → head 20 out = out).
Proof.
  destruct (rfm_report true two_countries) as [out |] eqn:E;
    [| by vm_compute in E].
  exists out. split; [done |].
  exact (head_shows_lowest_customers true two_countries out E).
Defined.

Lemma rfm_score_determines_scores_witness :
  ∃ out row row',
    rfm_report true two_countries = Some out
    ∧ out !! 0%nat = Some row ∧ out !! 1%nat = Some row'
    ∧ RFM_Score (customer row) = RFM_Score (customer row')
    ∧ Pipeline.Segment (customer row) = Pipeline.Segment (customer row').
Proof.
  destruct (rfm_report true two_countries) as [out |] eqn:E;
    [| by vm_compute in E].
  destruct out as [| row [| row' out]]; [by vm_compute in E .. |].
  exists (row :: row' :: out), row, row'.
  assert (RFM_Score (customer row) = RFM_Score (customer row')) as Heq.
  { vm_compute in E. by injection E as <- <- _. }
  do 4 (split; [done |]).
  apply (rfm_score_determines_scores true two_countries (row :: row' :: out)
           row row' E); [left | right; left | exact Heq].
Defined.

(** On [with_returns]: customer 2 is in the table and not in the
    positive-revenue view.  On [two_countries]: customer 1 is counted
    twice in the summary. *)
Example sample_reports :
  (∃ out,
     rfm_report true (preprocess with_returns) = Some out
     ∧ customer_id <$> out = [1; 2; 3]
     ∧ customer_id <$> rfm_positive out = [1; 3]
     ∧ Count <$> segment_summary out = [1; 1; 1])
  ∧ (∃ out,
       rfm_report true two_countries = Some out
       ∧ customer_id <$> out = [1; 1; 2]
       ∧ (λ sr, (summary_Segment sr, Count sr)) <$> segment_summary out
         = [("At Risk", 2); ("Potential Loyalist", 1)]).
Proof.
  split.
  - eexists. split; [by vm_compute |]. repeat split; by vm_compute.
  - eexists. split; [by vm_compute |]. repeat split; by vm_compute.
Qed.


End MoreSamples.
